(** * osm-region-downloader: the streaming tag aggregator and the contributor analyzer

    A shallow embedding of [guimon3.py] ([OSMParserThread._parse], [run] and
    [OSMExplorerApp._format_object]) and of [proc.py] ([analyze_osm_xml]),
    followed by the properties of the two programs.

    Conventions of the embedding.
    - [Counter] and [defaultdict] objects that are only read by key are finite
      maps ([gmap]); a missing key of a [Counter] reads as [0], a missing key
      of a [defaultdict] is created with the default value on first access.
    - A dict that the program iterates ([tags.items()], [most_common()],
      [contrib_timestamps.items()]) is an insertion-ordered association list
      with unique keys ([odict]): assigning to a key that is present replaces
      the value where it stands, a new key goes to the end.
    - An XML element is a tag, an attribute mapping and the list of children.
    - The clock ([time.time()]) and the [datetime] library are interfaces. *)

From Stdlib Require Import ZArith Ascii String.
From stdpp Require Import base option list sorting strings gmap fin_maps.

Set Warnings "-clear-no-such-hyp".

Local Open Scope string_scope.
Local Open Scope nat_scope.
Local Open Scope list_scope.
Local Open Scope stdpp_scope.

(** ** Insertion-ordered dictionaries *)

Module OrderedDict.
Section odict.
Context {K : Type} `{EqDecision K} {V : Type}.

Definition odict := list (K * V).

(** [d.get(k)] *)
Fixpoint get (d : odict) (k : K) : option V :=
  match d with
  | [] => None
  | (k', v) :: d' => if decide (k' = k) then Some v else get d' k
  end.

(** [d[k] = v] *)
Fixpoint set (d : odict) (k : K) (v : V) : odict :=
  match d with
  | [] => [(k, v)]
  | (k', v') :: d' =>
      if decide (k' = k) then (k, v) :: d' else (k', v') :: set d' k v
  end.

Definition keys (d : odict) : list K := d.*1.

End odict.
Global Arguments odict : clear implicits.
End OrderedDict.
Import OrderedDict.

(** ** Python values shared by the two programs *)

(** The exceptions the two programs can end with. *)
Inductive exn :=
  | StopIteration
  | ParseError (msg : string)
  | ValueError (msg : string)
  | TypeError (msg : string).

(** [collections.Counter] read by key: a missing key counts [0]. *)
Definition counter_get `{Countable K} (c : gmap K nat) (k : K) : nat :=
  default 0 (c !! k).

(** [c[k] += 1] *)
Definition counter_incr `{Countable K} (c : gmap K nat) (k : K) : gmap K nat :=
  <[k := counter_get c k + 1]> c.

(** [sum(c.values())] *)
Definition counter_total `{Countable K} (c : gmap K nat) : nat :=
  map_fold (λ _ n s, n + s) 0 c.

(** Truth value of [x] where [x = d.get(key)]: [None] and [''] are false. *)
Definition truthy (x : option string) : bool :=
  match x with
  | Some (String _ _) => true
  | _ => false
  end.

(** ** XML elements and the events of [ET.iterparse] *)

#[warnings="-register-all"]
Inductive Element := mkElement {
  tag : string;
  attrib : gmap string string;
  children : list Element }.

Inductive Event := Start | End.

(** What [for event, elem in context] receives: the events in document order,
    each with the element as the loop body finds it, and then either the end
    of the iteration or the exception the parser raises ([failure]).  The
    calls [elem.clear()] and [root.clear()] release elements the loop has
    done with; what they leave of an element that a later event delivers is
    part of that event's element here. *)
Record Context := mkContext {
  events : list (Event * Element);
  failure : option exn }.

(** The events of a whole document that parses and whose root is not itself
    a [node], [way] or [relation] (such a root would reach its end event
    emptied by [root.clear()]).  The element of a start event is not looked
    at by the loop. *)
Fixpoint iterparse_events (e : Element) : list (Event * Element) :=
  (Start, e) ::
  (fix over (cs : list Element) : list (Event * Element) :=
     match cs with
     | [] => []
     | c :: cs' => iterparse_events c ++ over cs'
     end) (children e) ++ [(End, e)].

Definition iterparse (doc : Element) : Context :=
  {| events := iterparse_events doc; failure := None |}.

(** ** The streaming aggregator ([guimon3.py], [OSMParserThread]) *)

(** [(obj_type, obj_id, entry_name)] *)
Definition Entry : Type := string * string * string.

(** The three accumulators of the parser object. *)
Record Aggregate := mkAggregate {
  tag_counts : gmap string nat;
  values_map : gmap string (gmap string nat);
  objects_map : gmap (string * string) (list Entry) }.

(** [__init__]: empty accumulators. *)
Definition init : Aggregate :=
  {| tag_counts := ∅; values_map := ∅; objects_map := ∅ |}.

(** [elem.tag in ('node', 'way', 'relation')] *)
Definition is_osm_object (t : string) : bool :=
  bool_decide (t ∈ ["node"; "way"; "relation"]).

(** Lines 41-45: one child of the element against the local [tags] dict. *)
Definition collect_tag (tags : odict string string) (child : Element)
    : odict string string :=
  if decide (tag child = "tag") then
    match attrib child !! "k", attrib child !! "v" with
    | Some k, Some v => set tags k v
    | _, _ => tags
    end
  else tags.

(** Lines 39-45: [tags = {}] and the loop over the children. *)
Definition collect_tags (elem : Element) : odict string string :=
  foldl collect_tag [] (children elem).

Definition unnamed : string := "unnamed key-value".

(** [elem.attrib.get('id') or ''] *)
Definition obj_id_of (elem : Element) : string :=
  match attrib elem !! "id" with
  | Some i => if truthy (Some i) then i else ""
  | None => ""
  end.

(** [name if name is not None else 'unnamed key-value'] *)
Definition entry_name_of (name : option string) : string :=
  match name with
  | Some n => n
  | None => unnamed
  end.

(** Lines 51-54: the body of [for k, v in tags.items()]. *)
Definition record_tag (obj_type obj_id : string) (name : option string)
    (a : Aggregate) (kv : string * string) : Aggregate :=
  let '(k, v) := kv in
  {| tag_counts := counter_incr (tag_counts a) k;
     values_map :=
       <[k := counter_incr (default ∅ (values_map a !! k)) v]> (values_map a);
     objects_map :=
       <[(k, v) := default [] (objects_map a !! (k, v))
                   ++ [(obj_type, obj_id, entry_name_of name)]]> (objects_map a) |}.

(** Lines 39-54: one [node], [way] or [relation] at its end event. *)
Definition aggregate_element (a : Aggregate) (elem : Element) : Aggregate :=
  let tags := collect_tags elem in
  match tags with
  | [] => a
  | _ :: _ =>
      let obj_type := tag elem in
      let obj_id := obj_id_of elem in
      let name := get tags "name" in
      foldl (record_tag obj_type obj_id name) a tags
  end.

(** What the explorer reads of the result: [self.values_map.get(key,
    Counter())] (line 201) and [self.objects_map.get((key, value), [])]
    (line 217). *)
Definition values_for (a : Aggregate) (key : string) : gmap string nat :=
  default ∅ (values_map a !! key).

Definition objects_for (a : Aggregate) (key value : string) : list Entry :=
  default [] (objects_map a !! (key, value)).

(** The tuple line 54 appends for an object (lines 47-49 and 53). *)
Definition entry_of (elem : Element) : Entry :=
  (tag elem, obj_id_of elem, entry_name_of (get (collect_tags elem) "name")).

(** The name shown for an object: the third component of its tuple. *)
Definition display_name (elem : Element) : string := (entry_of elem).2.

(** The values of the tag children of [elem] that have both attributes and
    the key [k], in document order. *)
Definition tag_value (k : string) (child : Element) : option string :=
  if decide (tag child = "tag") then
    match attrib child !! "k", attrib child !! "v" with
    | Some k', Some v => if decide (k' = k) then Some v else None
    | _, _ => None
    end
  else None.

Definition tag_values (k : string) (elem : Element) : list string :=
  omap (tag_value k) (children elem).

(** Whether the loop body of [_parse] processes the element of an event
    (line 37), and the elements it processes: those of the end events with
    an OSM tag, after the first event. *)
Definition processed_by (ev : Event * Element) : option Element :=
  match ev.1 with
  | End => if is_osm_object (tag ev.2) then Some ev.2 else None
  | Start => None
  end.

Definition processed (context : Context) : list Element :=
  omap processed_by (tail (events context)).

(** The clock: [time_time n] is what the [n]-th call of [time.time()] returns
    (counting from 0), and [elapsed_gt_half now last] is the truth value of
    [(now - last) > 0.5] on the floats of the program. *)
Class Clock := {
  Time : Type;
  time_time : nat → Time;
  elapsed_gt_half : Time → Time → bool }.

Section aggregator.
Context `{Clock}.

(** The local variables of [_parse], with the accumulators of [self], the
    number of clock readings so far and the arguments the progress
    callback has been called with. *)
Record ParseState := mkParseState {
  self : Aggregate;
  last_report : Time;
  elements_processed : nat;
  clock_reads : nat;
  reported : list nat }.

(** Lines 37-60: the body of [for event, elem in context].  [callback] says
    whether a [progress_callback] was given. *)
Definition parse_event (callback : bool) (s : ParseState)
    (ev : Event * Element) : ParseState :=
  let '(event, elem) := ev in
  match event with
  | End =>
      if is_osm_object (tag elem) then
        let n := S (elements_processed s) in
        let a := aggregate_element (self s) elem in
        if callback then
          if elapsed_gt_half (time_time (clock_reads s)) (last_report s) then
            {| self := a;
               last_report := time_time (S (clock_reads s));
               elements_processed := n;
               clock_reads := S (S (clock_reads s));
               reported := reported s ++ [n] |}
          else
            {| self := a;
               last_report := last_report s;
               elements_processed := n;
               clock_reads := S (clock_reads s);
               reported := reported s |}
        else
          {| self := a;
             last_report := last_report s;
             elements_processed := n;
             clock_reads := clock_reads s;
             reported := reported s |}
      else s
  | Start => s
  end.

(** Lines 33-34. *)
Definition parse_start : ParseState :=
  {| self := init;
     last_report := time_time 0;
     elements_processed := 0;
     clock_reads := 1;
     reported := [] |}.

(** [_parse]: the accumulators it leaves in [self], the counts it has
    reported, and the exception it raises, if any.  [next(context)] takes
    the first event; when the iteration ends without an exception the final
    count is reported (lines 62-63). *)
Definition _parse (callback : bool) (context : Context)
    : Aggregate * list nat * option exn :=
  match events context with
  | [] => (init, [], Some (default StopIteration (failure context)))
  | _ :: rest =>
      let s := foldl (parse_event callback) parse_start rest in
      match failure context with
      | Some e => (self s, reported s, Some e)
      | None =>
          (self s,
           if callback then reported s ++ [elements_processed s]
           else reported s,
           None)
      end
  end.

(** The parser object when the thread is done: the accumulators,
    [self.error], and what the progress observer received. *)
Record Parser := mkParser {
  result : Aggregate;
  error : option exn;
  progress : list nat }.

(** [run]: the exception of [_parse] is kept in [self.error]. *)
Definition run (callback : bool) (context : Context) : Parser :=
  let '(a, counts, raised) := _parse callback context in
  {| result := a; error := raised; progress := counts |}.

End aggregator.

(** ** The citation line ([OSMExplorerApp._format_object]) *)

(** [str.capitalize()] on ASCII text: the first character in upper case and
    the others in lower case; other bytes are kept. *)
Definition upper (c : ascii) : ascii :=
  let n := nat_of_ascii c in
  if (97 <=? n) && (n <=? 122) then ascii_of_nat (n - 32) else c.

Definition lower (c : ascii) : ascii :=
  let n := nat_of_ascii c in
  if (65 <=? n) && (n <=? 90) then ascii_of_nat (n + 32) else c.

Fixpoint lower_all (s : string) : string :=
  match s with
  | EmptyString => EmptyString
  | String c r => String (lower c) (lower_all r)
  end.

Definition capitalize (s : string) : string :=
  match s with
  | EmptyString => EmptyString
  | String c r => String (upper c) (lower_all r)
  end.

(** An f-string with plain replacement fields, read from the left: [{{] and
    [}}] are one literal brace, [{name}] is the value of the local variable
    [name], and the text a field inserts is not read again.  [field] is the
    name being read when inside a field.  [None] stands for a template
    Python rejects. *)
Fixpoint fstring (locals : string → option string) (template : string)
    (field : option string) : option string :=
  match template with
  | EmptyString => match field with None => Some EmptyString | Some _ => None end
  | String c r =>
      match field with
      | Some name =>
          if decide (c = "}"%char) then
            value ← locals name;
            rest ← fstring locals r None;
            Some (value +:+ rest)
          else fstring locals r (Some (name +:+ String c EmptyString))
      | None =>
          if decide (c = "{"%char) then
            match r with
            | String "{"%char r' => String "{"%char <$> fstring locals r' None
            | _ => fstring locals r (Some EmptyString)
            end
          else if decide (c = "}"%char) then
            match r with
            | String "}"%char r' => String "}"%char <$> fstring locals r' None
            | _ => None
            end
          else String c <$> fstring locals r None
      end
  end.

(** Lines 224-228. *)
Definition _format_object (obj_tuple : Entry) : option string :=
  let '(typ, oid, name) := obj_tuple in
  let template_type := capitalize typ in
  let safe_name := if truthy (Some name) then name else unnamed in
  let locals (x : string) :=
    if decide (x = "template_type") then Some template_type
    else if decide (x = "oid") then Some oid
    else if decide (x = "safe_name") then Some safe_name
    else None in
  fstring locals "* {{{{{template_type}|{oid}|{safe_name}}}}}" None.

(** ** The contributor analyzer ([proc.py], [analyze_osm_xml]) *)

(** What the program uses of [datetime]: [fromisoformat] (the instant, or
    the message of the [ValueError] it raises), the order of two instants
    and their difference ([None] when Python raises [TypeError], as between
    an instant with an offset and one without), and the order of two
    [timedelta]s. *)
Class Datetime := {
  datetime : Type;
  fromisoformat : string → string + datetime;
  dt_lt : datetime → datetime → option bool;
  timedelta : Type;
  dt_sub : datetime → datetime → option timedelta;
  td_lt : timedelta → timedelta → bool }.

(** [ts.replace("Z", "+00:00")] *)
Fixpoint replace_Z (s : string) : string :=
  match s with
  | EmptyString => EmptyString
  | String c r =>
      if decide (c = "Z"%char) then "+00:00" +:+ replace_Z r
      else String c (replace_Z r)
  end.

(** A [Counter] whose order shows in [most_common()]. *)
Definition count_of (c : odict string nat) (k : string) : nat :=
  default 0 (get c k).

Definition incr (c : odict string nat) (k : string) : odict string nat :=
  set c k (count_of c k + 1).

(** Insertion of [x] into a list in descending order of [key], after the
    elements of equal key. *)
Fixpoint insert_desc {A B : Type} (lt : B → B → bool) (key : A → B)
    (x : A) (l : list A) : list A :=
  match l with
  | [] => [x]
  | y :: r =>
      if lt (key y) (key x) then x :: y :: r
      else y :: insert_desc lt key x r
  end.

(** [sorted(items, key=key, reverse=True)]: descending and stable. *)
Definition sorted_desc {A B : Type} (lt : B → B → bool) (key : A → B)
    (items : list A) : list A :=
  foldl (λ acc x, insert_desc lt key x acc) [] items.

(** [Counter.most_common()] *)
Definition most_common (c : odict string nat) : list (string * nat) :=
  sorted_desc Nat.ltb snd c.

(** [elem.findall("tag")]: the children with that tag. *)
Definition findall (t : string) (elem : Element) : list Element :=
  filter (λ c, tag c = t) (children elem).

(** Lines 34-36: one [tag] child against [tags_counter]. *)
Definition count_tag (c : odict string nat) (child : Element)
    : odict string nat :=
  match attrib child !! "k" with
  | Some k => if truthy (Some k) then incr c k else c
  | None => c
  end.

(** The condition of line 26, [ts and user]. *)
Definition contributes (elem : Element) : bool :=
  truthy (attrib elem !! "timestamp") && truthy (attrib elem !! "user").

Section analyzer.
Context `{Datetime}.

(** Lines 12-15. *)
Record Analysis := mkAnalysis {
  timestamps : list datetime;
  contributors : odict string nat;
  tags_counter : odict string nat;
  contrib_timestamps : odict string (list datetime) }.

Definition analysis_start : Analysis :=
  {| timestamps := []; contributors := []; tags_counter := [];
     contrib_timestamps := [] |}.

(** Lines 23-30: the metadata of one object. *)
Definition collect_metadata (st : Analysis) (elem : Element)
    : exn + Analysis :=
  let ts := attrib elem !! "timestamp" in
  let user := attrib elem !! "user" in
  if contributes elem then
    match ts, user with
    | Some ts, Some user =>
        match fromisoformat (replace_Z ts) with
        | inr dt =>
            inr {| timestamps := timestamps st ++ [dt];
                   contributors := incr (contributors st) user;
                   tags_counter := tags_counter st;
                   contrib_timestamps :=
                     set (contrib_timestamps st) user
                         (default [] (get (contrib_timestamps st) user) ++ [dt]) |}
        | inl msg => inl (ValueError msg)
        end
    | _, _ => inr st
    end
  else inr st.

(** Lines 33-36: the tags of one object. *)
Definition collect_tag_keys (st : Analysis) (elem : Element) : Analysis :=
  {| timestamps := timestamps st;
     contributors := contributors st;
     tags_counter := foldl count_tag (tags_counter st) (findall "tag" elem);
     contrib_timestamps := contrib_timestamps st |}.

(** Lines 19-36: the body of the loop over the root's children. *)
Definition analyze_element (st : Analysis) (elem : Element)
    : exn + Analysis :=
  if is_osm_object (tag elem) then
    match collect_metadata st elem with
    | inl e => inl e
    | inr st' => inr (collect_tag_keys st' elem)
    end
  else inr st.

(** Lines 18-36: [for elem in root.findall("./*")]. *)
Fixpoint analyze_loop (st : Analysis) (elems : list Element)
    : exn + Analysis :=
  match elems with
  | [] => inr st
  | elem :: rest =>
      match analyze_element st elem with
      | inl e => inl e
      | inr st' => analyze_loop st' rest
      end
  end.

(** [min] and [max] of a list of instants: the first least (greatest) one,
    [ValueError] on the empty list (with the message of Python 3.11; later
    versions word it differently). *)
Fixpoint min_from (cur : datetime) (l : list datetime) : exn + datetime :=
  match l with
  | [] => inr cur
  | x :: r =>
      match dt_lt x cur with
      | Some b => min_from (if b then x else cur) r
      | None => inl (TypeError "can't compare offset-naive and offset-aware datetimes")
      end
  end.

Definition py_min (l : list datetime) : exn + datetime :=
  match l with
  | [] => inl (ValueError "min() arg is an empty sequence")
  | x :: r => min_from x r
  end.

Fixpoint max_from (cur : datetime) (l : list datetime) : exn + datetime :=
  match l with
  | [] => inr cur
  | x :: r =>
      match dt_lt cur x with
      | Some b => max_from (if b then x else cur) r
      | None => inl (TypeError "can't compare offset-naive and offset-aware datetimes")
      end
  end.

Definition py_max (l : list datetime) : exn + datetime :=
  match l with
  | [] => inl (ValueError "max() arg is an empty sequence")
  | x :: r => max_from x r
  end.

(** Lines 48-53: the lifespan of every contributor. *)
Fixpoint lifespans (items : list (string * list datetime))
    (lifespan : odict string timedelta) : exn + odict string timedelta :=
  match items with
  | [] => inr lifespan
  | (user, tslist) :: rest =>
      match py_min tslist with
      | inl e => inl e
      | inr oldest_user =>
          match py_max tslist with
          | inl e => inl e
          | inr newest_user =>
              match dt_sub newest_user oldest_user with
              | Some span => lifespans rest (set lifespan user span)
              | None => inl (TypeError "can't subtract offset-naive and offset-aware datetimes")
              end
          end
      end
  end.

(** What the program prints. *)
Record Report := mkReport {
  oldest : datetime;
  newest : datetime;
  top_tags : list (string * nat);
  top_contribs : list (string * nat);
  lifespan_ranked : list (string * timedelta) }.

(** [analyze_osm_xml] on the parsed document [root]. *)
Definition analyze_osm_xml (root : Element) : exn + Report :=
  match analyze_loop analysis_start (children root) with
  | inl e => inl e
  | inr st =>
      match py_min (timestamps st) with
      | inl e => inl e
      | inr oldest =>
          match py_max (timestamps st) with
          | inl e => inl e
          | inr newest =>
              match lifespans (contrib_timestamps st) [] with
              | inl e => inl e
              | inr lifespan =>
                  inr {| oldest := oldest;
                         newest := newest;
                         top_tags := most_common (tags_counter st);
                         top_contribs := most_common (contributors st);
                         lifespan_ranked := sorted_desc td_lt snd lifespan |}
              end
          end
      end
  end.
End analyzer.

(** The objects of the document: the root's children with an OSM tag
    (lines 18-20). *)
Definition osm_objects (root : Element) : list Element :=
  filter (λ elem, is_osm_object (tag elem) = true) (children root).

(** How many tag children of [elems] name the key [k], a non-empty text, in
    their [k] attribute. *)
Definition key_occurrences (k : string) (elems : list Element) : nat :=
  if truthy (Some k) then
    length (filter (λ child, attrib child !! "k" = Some k)
                   (elems ≫= findall "tag"))
  else 0.

(** ** Instances of the interfaces and example documents *)

(** A clock in milliseconds whose readings are 300 ms apart. *)
Global Instance millis_clock : Clock :=
  {| Time := Z;
     time_time n := (300 * Z.of_nat n)%Z;
     elapsed_gt_half now last := (500 <? now - last)%Z |}.

(** Instants in UTC as seconds since 1970-01-01T00:00:00, read from the
    form OSM extracts write once [Z] is replaced:
    [YYYY-MM-DDTHH:MM:SS+00:00]. *)
Module Utc.
Definition digit (c : ascii) : option Z :=
  let n := nat_of_ascii c in
  if (48 <=? n) && (n <=? 57) then Some (Z.of_nat (n - 48)) else None.

(** [n] decimal digits at the head of [s]. *)
Fixpoint digits (n : nat) (acc : Z) (s : string) : option (Z * string) :=
  match n, s with
  | O, _ => Some (acc, s)
  | S n', String c r => d ← digit c; digits n' (10 * acc + d)%Z r
  | S _, EmptyString => None
  end.

Definition expect (c : ascii) (s : string) : option string :=
  match s with
  | String c' r => if decide (c = c') then Some r else None
  | EmptyString => None
  end.

Definition is_leap (y : Z) : bool :=
  ((y mod 4 =? 0) && (negb (y mod 100 =? 0) || (y mod 400 =? 0)))%Z.

Definition days_in_month (y m : Z) : Z :=
  (if m =? 2 then (if is_leap y then 29 else 28)
   else if (m =? 4) || (m =? 6) || (m =? 9) || (m =? 11) then 30 else 31)%Z.

(** Days from 1970-01-01 to the given day of the proleptic Gregorian calendar. *)
Definition days_from_civil (y m d : Z) : Z :=
  (let y' := if m <=? 2 then y - 1 else y in
   let era := y' / 400 in
   let yoe := y' - era * 400 in
   let doy := (153 * (if 2 <? m then m - 3 else m + 9) + 2) / 5 + d - 1 in
   let doe := yoe * 365 + yoe / 4 - yoe / 100 + doy in
   era * 146097 + doe - 719468)%Z.

Definition parse (s : string) : option Z :=
  '(y, s) ← digits 4 0 s; s ← expect "-" s;
  '(m, s) ← digits 2 0 s; s ← expect "-" s;
  '(d, s) ← digits 2 0 s; s ← expect "T" s;
  '(hh, s) ← digits 2 0 s; s ← expect ":" s;
  '(mm, s) ← digits 2 0 s; s ← expect ":" s;
  '(ss, s) ← digits 2 0 s;
  if decide (s = "+00:00") then
    if ((1 <=? y) && (1 <=? m) && (m <=? 12) && (1 <=? d)
        && (d <=? days_in_month y m)
        && (hh <? 24) && (mm <? 60) && (ss <? 60))%Z
    then Some (days_from_civil y m d * 86400 + hh * 3600 + mm * 60 + ss)%Z
    else None
  else None.

Global Instance utc : Datetime :=
  {| datetime := Z;
     fromisoformat s :=
       match parse s with
       | Some t => inr t
       | None => inl ("Invalid isoformat string: '" +:+ s +:+ "'")
       end;
     dt_lt a b := Some (a <? b)%Z;
     timedelta := Z;
     dt_sub a b := Some (a - b)%Z;
     td_lt a b := (a <? b)%Z |}.
End Utc.

(** [<tag k=... v=.../>] *)
Definition tag_kv (k v : string) : Element :=
  mkElement "tag" {[ "k" := k; "v" := v ]} [].

(** One [node] (id 1, [name=Cafe], [amenity=cafe]) and one [way] (id 2,
    [amenity=cafe]). *)
Definition cafe_doc : Element :=
  mkElement "osm" ∅
    [ mkElement "node" {[ "id" := "1" ]}
        [tag_kv "name" "Cafe"; tag_kv "amenity" "cafe"];
      mkElement "way" {[ "id" := "2" ]} [tag_kv "amenity" "cafe"] ].

(** The cafe document cut after the node, where the parser then fails. *)
Definition cafe_cut : Context :=
  mkContext (take 7 (iterparse_events cafe_doc))
            (Some (ParseError "no element found")).

(** A node by bob whose timestamp names a thirteenth month. *)
Definition bad_month : Element :=
  mkElement "node"
    {[ "id" := "8"; "user" := "bob"; "timestamp" := "2020-13-01T00:00:00Z" ]} [].

(** Three keys, the first and the last named once, the second twice. *)
Definition ties_doc : Element :=
  mkElement "osm" ∅
    [ mkElement "node" {[ "id" := "1" ]}
        [tag_kv "shop" "bakery"; tag_kv "name" "A"];
      mkElement "node"
        {[ "id" := "2"; "user" := "carol"; "timestamp" := "2020-01-01T00:00:00Z" ]}
        [tag_kv "name" "B"; tag_kv "amenity" "cafe"] ].

(** The cafe document with the way before the node. *)
Definition cafe_doc_reversed : Element :=
  mkElement (tag cafe_doc) (attrib cafe_doc) (reverse (children cafe_doc)).

(** A node whose name is the text used for unnamed objects. *)
Definition sentinel_named : Element :=
  mkElement "node" {[ "id" := "7" ]} [tag_kv "name" "unnamed key-value"].

Definition sentinel_named_doc : Element := mkElement "osm" ∅ [sentinel_named].

(** A way on which the key [surface] is set twice, and a tag without [v]. *)
Definition repeated_key : Element :=
  mkElement "way" {[ "id" := "9" ]}
    [tag_kv "surface" "gravel";
     mkElement "tag" {[ "k" := "lit" ]} [];
     tag_kv "surface" "asphalt"].

Definition repeated_key_doc : Element := mkElement "osm" ∅ [repeated_key].

(** A node with a timestamp and an empty user name. *)
Definition empty_user : Element :=
  mkElement "node"
    {[ "id" := "5"; "user" := ""; "timestamp" := "2020-01-01T00:00:00Z" ]} [].

(** A relation with a timestamp, no user, and a tag without [v]. *)
Definition no_user : Element :=
  mkElement "relation" {[ "id" := "4"; "timestamp" := "2021-05-05T05:05:05Z" ]}
    [mkElement "tag" {[ "k" := "name" ]} []].

(** A node by alice. *)
Definition by_alice : Element :=
  mkElement "node"
    {[ "id" := "1"; "user" := "alice"; "timestamp" := "2020-01-01T00:00:00Z" ]}
    [tag_kv "amenity" "cafe"].

(** Two objects by alice, one by bob, and one without a user. *)
Definition edits_doc : Element :=
  mkElement "osm" ∅
    [ by_alice;
      mkElement "way"
        {[ "id" := "2"; "user" := "alice"; "timestamp" := "2020-01-02T00:00:10Z" ]}
        [tag_kv "amenity" "cafe"; tag_kv "amenity" "bar"];
      mkElement "node"
        {[ "id" := "3"; "user" := "bob"; "timestamp" := "2019-06-30T12:00:00Z" ]} [];
      no_user ].

(** ** Invariants of the loops *)

(** Every key's count is the sum of the counts of its values. *)
Definition sums_agree (a : Aggregate) : Prop :=
  ∀ k, tag_counts a !! k = counter_total <$> values_map a !! k.

(** The counts reported so far do not decrease and do not exceed the number
    of elements processed so far. *)
Definition progress_ok `{Clock} (s : ParseState) : Prop :=
  Sorted le (reported s) ∧ Forall (λ n, n ≤ elements_processed s) (reported s).


(** The number of objects listed for a pair is the count of the value. *)
Definition buckets_agree (a : Aggregate) : Prop :=
  ∀ k v, length (objects_for a k v) = counter_get (values_for a k) v.

(** What is present in the three structures has been counted at least
    once. *)
Definition entries_positive (a : Aggregate) : Prop :=
  (∀ k n, tag_counts a !! k = Some n → 1 ≤ n)
  ∧ (∀ k m, values_map a !! k = Some m →
            m ≠ ∅ ∧ ∀ v c, m !! v = Some c → 1 ≤ c)
  ∧ (∀ p l, objects_map a !! p = Some l → l ≠ []).

(** ** The totals of the explorer's status line ([OSMExplorerApp.on_finished]) *)

(** Line 176: [len(self.tag_counts)]. *)
Definition total_keys (a : Aggregate) : nat := size (tag_counts a).

(** Line 177: [sum(self.tag_counts.values())], which line 178 shows as the
    number of tagged objects. *)
Definition total_objs (a : Aggregate) : nat := counter_total (tag_counts a).

(** ** Invariants of the analyzer's loop *)

(** The accumulators have unique keys, the contributors are the users with
    timestamps, and the timestamps of a user are some of all the
    timestamps, at least one. *)
Definition analysis_ok `{Datetime} (st : Analysis) : Prop :=
  NoDup (keys (contributors st))
  ∧ NoDup (keys (tags_counter st))
  ∧ keys (contributors st) = keys (contrib_timestamps st)
  ∧ ∀ u l, get (contrib_timestamps st) u = Some l →
           l ≠ [] ∧ ∀ t, t ∈ l → t ∈ timestamps st.

(** The objects that count as edits of user [u] (line 26 with the user). *)
Definition edits_of (u : string) (elems : list Element) : list Element :=
  filter (λ e, contributes e = true ∧ attrib e !! "user" = Some u) elems.

(** ** Assumptions on the [datetime] interface *)

(** Where it says that an instant is before another, the order of instants
    is a strict weak order (a total order up to ties), as it is among
    instants that all have, or all lack, an offset. *)
Definition dt_ordered `{Datetime} : Prop :=
  (∀ a, dt_lt a a ≠ Some true)
  ∧ (∀ a b c, dt_lt a b = Some true → dt_lt b c = Some true →
              dt_lt a c = Some true)
  ∧ (∀ a b c, dt_lt a c = Some true →
              dt_lt a b = Some true ∨ dt_lt b c = Some true).

(** Comparison and difference of instants never raise. *)
Definition dt_total `{Datetime} : Prop :=
  (∀ a b, is_Some (dt_lt a b)) ∧ (∀ a b, is_Some (dt_sub a b)).

(** Whether the text has a line feed, the separator of the lines that
    [copy_selected] and [copy_all] join (lines 241 and 257). *)
Fixpoint has_newline (s : string) : bool :=
  match s with
  | EmptyString => false
  | String c r => bool_decide (c = "010"%char) || has_newline r
  end.

(** * Properties *)

(** ** Insertion-ordered dictionaries *)

Section odict_facts.
Context {K : Type} `{EqDecision K} {V : Type}.
Implicit Types (d : odict K V) (k : K) (v : V).

Lemma get_set_eq d k v : get (set d k v) k = Some v.
Proof.
  induction d as [|[k' v'] d IH]; simpl.
  - by rewrite decide_True.
  - destruct (decide (k' = k)) as [->|Hne]; simpl.
    + by rewrite decide_True.
    + by rewrite decide_False.
Qed.

Lemma get_set_ne d k k' v : k ≠ k' → get (set d k v) k' = get d k'.
Proof.
  intros Hne. induction d as [|[k0 v0] d IH]; simpl.
  - by rewrite decide_False.
  - destruct (decide (k0 = k)) as [->|Hk]; simpl.
    + by rewrite !decide_False.
    + by rewrite IH.
Qed.

Lemma get_set d k k' v :
  get (set d k v) k' = if decide (k = k') then Some v else get d k'.
Proof.
  destruct (decide (k = k')) as [->|Hne];
    [apply get_set_eq | by apply get_set_ne].
Qed.

Lemma get_None d k : get d k = None ↔ k ∉ keys d.
Proof.
  unfold keys. induction d as [|[k' v'] d IH]; simpl.
  - split; [intros _; apply not_elem_of_nil | done].
  - rewrite not_elem_of_cons. destruct (decide (k' = k)) as [->|Hne].
    + split; [done | intros [? _]; done].
    + rewrite IH. split; [by intros ?; split | by intros [_ ?]].
Qed.

Lemma get_is_Some d k : is_Some (get d k) ↔ k ∈ keys d.
Proof.
  rewrite <-not_eq_None_Some, get_None.
  destruct (decide (k ∈ keys d)) as [Hin|Hnin]; split; try done.
  intros _ Hnin. by apply Hnin.
Qed.

Lemma keys_set_in d k v : k ∈ keys d → keys (set d k v) = keys d.
Proof.
  unfold keys. induction d as [|[k' v'] d IH]; simpl.
  - intros H. by apply elem_of_nil in H.
  - intros H. destruct (decide (k' = k)) as [->|Hne]; simpl; [done|].
    f_equal. apply IH. apply elem_of_cons in H as [Heq|Hin]; [|done].
    simpl in Heq. by subst.
Qed.

Lemma keys_set_notin d k v : k ∉ keys d → keys (set d k v) = keys d ++ [k].
Proof.
  unfold keys. induction d as [|[k' v'] d IH]; simpl; [done|].
  rewrite not_elem_of_cons. intros [Hne Hnin].
  rewrite decide_False by done. csimpl. f_equal. by apply IH.
Qed.

Lemma keys_set_NoDup d k v : NoDup (keys d) → NoDup (keys (set d k v)).
Proof.
  intros Hnd. destruct (decide (k ∈ keys d)) as [Hin|Hnin].
  - by rewrite keys_set_in.
  - rewrite keys_set_notin by done.
    apply NoDup_app. split_and!; [done | | apply NoDup_singleton].
    intros x Hx Hx'. apply list_elem_of_singleton in Hx'. by subst.
Qed.

(** With unique keys, the items of the dictionary are its lookups. *)
Lemma elem_of_items d k v :
  NoDup (keys d) → (k, v) ∈ d ↔ get d k = Some v.
Proof.
  unfold keys. induction d as [|[k' v'] d IH]; simpl; intros Hnd.
  - split; [intros H; by apply elem_of_nil in H | done].
  - apply NoDup_cons in Hnd as [Hnin Hnd]. rewrite elem_of_cons.
    destruct (decide (k' = k)) as [->|Hne].
    + split; [|intros [= ->]; by left].
      intros [[= ->]|Hin]; [done|].
      exfalso. apply Hnin. apply list_elem_of_fmap. by exists (k, v).
    + rewrite <-IH by done. split; [|by right].
      intros [[= ? ?]|?]; [by subst|done].
Qed.
Lemma keys_NoDup_cons d k v :
  NoDup (keys ((k, v) :: d)) → (k ∉ keys d) ∧ NoDup (keys d).
Proof. unfold keys. rewrite fmap_cons. apply NoDup_cons. Qed.

Lemma item_notin d k v : k ∉ keys d → (k, v) ∉ d.
Proof.
  intros Hnin Hin. apply Hnin. apply list_elem_of_fmap. by exists (k, v).
Qed.

Lemma keys_cons d k v : keys ((k, v) :: d) = k :: keys d.
Proof. done. Qed.
End odict_facts.

(** ** Counters *)

Section counter_facts.
Context `{Countable K}.
Implicit Types (c : gmap K nat) (k : K).

Lemma counter_total_empty : counter_total (∅ : gmap K nat) = 0.
Proof. apply map_fold_empty. Qed.

Lemma counter_total_insert_fresh c k n :
  c !! k = None → counter_total (<[k := n]> c) = n + counter_total c.
Proof.
  intros Hk. unfold counter_total.
  rewrite map_fold_insert_L; [done | intros; lia | done].
Qed.

Lemma counter_total_incr c k :
  counter_total (counter_incr c k) = counter_total c + 1.
Proof.
  unfold counter_incr, counter_get. destruct (c !! k) as [n|] eqn:Hk; simpl.
  - rewrite <-(insert_delete_eq c).
    rewrite counter_total_insert_fresh by apply lookup_delete_eq.
    rewrite <-(insert_delete_id c k n) at 2 by done.
    rewrite counter_total_insert_fresh by apply lookup_delete_eq. lia.
  - rewrite counter_total_insert_fresh by done. lia.
Qed.

Lemma counter_get_incr c k k' :
  counter_get (counter_incr c k) k'
  = counter_get c k' + (if decide (k = k') then 1 else 0).
Proof.
  unfold counter_incr, counter_get at 1.
  destruct (decide (k = k')) as [->|Hne].
  - by rewrite lookup_insert_eq.
  - rewrite lookup_insert_ne by done. unfold counter_get. lia.
Qed.
End counter_facts.

(** ** The aggregator *)

(** *** The local [tags] dict *)

Lemma collect_tag_NoDup tags child :
  NoDup (keys tags) → NoDup (keys (collect_tag tags child)).
Proof.
  intros Hnd. unfold collect_tag.
  destruct (decide _); [|done].
  destruct (attrib child !! "k"), (attrib child !! "v"); try done.
  by apply keys_set_NoDup.
Qed.

Lemma foldl_collect_tag_NoDup cs tags :
  NoDup (keys tags) → NoDup (keys (foldl collect_tag tags cs)).
Proof.
  revert tags. induction cs as [|c cs IH]; intros tags Hnd; simpl; [done|].
  by apply IH, collect_tag_NoDup.
Qed.

Lemma collect_tags_NoDup elem : NoDup (keys (collect_tags elem)).
Proof. apply foldl_collect_tag_NoDup. constructor. Qed.

Lemma collect_tag_get tags child k :
  get (collect_tag tags child) k
  = match tag_value k child with Some v => Some v | None => get tags k end.
Proof.
  unfold collect_tag, tag_value.
  destruct (decide _); [|done].
  destruct (attrib child !! "k") as [k'|], (attrib child !! "v") as [v|];
    try done.
  rewrite get_set. by destruct (decide (k' = k)).
Qed.

Lemma foldl_collect_tag_get cs tags k :
  get (foldl collect_tag tags cs) k
  = match last (omap (tag_value k) cs) with
    | Some v => Some v
    | None => get tags k
    end.
Proof.
  revert tags. induction cs as [|c cs IH]; intros tags; simpl; [done|].
  rewrite IH, collect_tag_get.
  destruct (tag_value k c) as [v|]; [|done].
  rewrite last_cons. by destruct (last _).
Qed.

(** The mapping holds, for every key, the value of the last tag child that
    sets it. *)
Lemma collect_tags_get elem k :
  get (collect_tags elem) k = last (tag_values k elem).
Proof.
  unfold collect_tags, tag_values. rewrite foldl_collect_tag_get.
  by destruct (last _).
Qed.

Lemma collect_tags_items elem k v :
  (k, v) ∈ collect_tags elem ↔ get (collect_tags elem) k = Some v.
Proof. apply elem_of_items, collect_tags_NoDup. Qed.

(** *** One pair of the mapping (lines 51-54) *)

Section record_tag_facts.
Variables (obj_type obj_id : string) (name : option string).
Implicit Types (a : Aggregate) (k v : string).

Let entry : Entry := (obj_type, obj_id, entry_name_of name).
Let record := record_tag obj_type obj_id name.

Lemma record_tag_key_count a k v k' :
  counter_get (tag_counts (record a (k, v))) k'
  = counter_get (tag_counts a) k' + (if decide (k = k') then 1 else 0).
Proof. apply counter_get_incr. Qed.

Lemma record_tag_value_count a k v k' v' :
  counter_get (values_for (record a (k, v)) k') v'
  = counter_get (values_for a k') v'
    + (if decide ((k, v) = (k', v')) then 1 else 0).
Proof.
  unfold values_for. simpl. destruct (decide (k = k')) as [->|Hk].
  - rewrite lookup_insert_eq. simpl. rewrite counter_get_incr.
    destruct (decide (v = v')) as [->|Hv].
    + by rewrite decide_True.
    + rewrite decide_False; [done | congruence].
  - rewrite lookup_insert_ne by done.
    rewrite decide_False; [lia | congruence].
Qed.

Lemma record_tag_objects a k v k' v' :
  objects_for (record a (k, v)) k' v'
  = objects_for a k' v'
    ++ (if decide ((k, v) = (k', v')) then [entry] else []).
Proof.
  unfold objects_for. simpl. destruct (decide ((k, v) = (k', v'))) as [Heq|Hne].
  - rewrite Heq, lookup_insert_eq. done.
  - rewrite lookup_insert_ne by done. by rewrite app_nil_r.
Qed.

Lemma record_tag_objects_dom a k v p :
  is_Some (objects_map (record a (k, v)) !! p)
  ↔ is_Some (objects_map a !! p) ∨ p = (k, v).
Proof.
  simpl. rewrite lookup_insert_is_Some.
  destruct (decide ((k, v) = p)) as [<-|Hne].
  - split; [by right | by left].
  - split; [intros [?|[_ ?]]; [done | by left] | intros [?|?]; [|done]].
    by right.
Qed.

(** *** The whole mapping (lines 50-54) *)

Lemma foldl_record_tag_key_count tags a k :
  NoDup (keys tags) →
  counter_get (tag_counts (foldl record a tags)) k
  = counter_get (tag_counts a) k + (if decide (k ∈ keys tags) then 1 else 0).
Proof.
  revert a. induction tags as [|[k0 v0] tags IH]; intros a Hnd; cbn [foldl].
  - rewrite decide_False by apply not_elem_of_nil. lia.
  - apply keys_NoDup_cons in Hnd as [Hnin Hnd].
    rewrite IH, record_tag_key_count, keys_cons by done.
    repeat case_decide; simplify_eq; try lia; set_solver.
Qed.

Lemma foldl_record_tag_value_count tags a k v :
  NoDup (keys tags) →
  counter_get (values_for (foldl record a tags) k) v
  = counter_get (values_for a k) v
    + (if decide ((k, v) ∈ tags) then 1 else 0).
Proof.
  revert a. induction tags as [|[k0 v0] tags IH]; intros a Hnd; cbn [foldl].
  - rewrite decide_False by apply not_elem_of_nil. lia.
  - apply keys_NoDup_cons in Hnd as [Hnin Hnd].
    pose proof (item_notin tags k0 v0 Hnin).
    rewrite IH, record_tag_value_count by done.
    repeat case_decide; simplify_eq; try lia; set_solver.
Qed.

Lemma foldl_record_tag_objects tags a k v :
  NoDup (keys tags) →
  objects_for (foldl record a tags) k v
  = objects_for a k v ++ (if decide ((k, v) ∈ tags) then [entry] else []).
Proof.
  revert a. induction tags as [|[k0 v0] tags IH]; intros a Hnd; cbn [foldl].
  - rewrite decide_False by apply not_elem_of_nil. by rewrite app_nil_r.
  - apply keys_NoDup_cons in Hnd as [Hnin Hnd].
    pose proof (item_notin tags k0 v0 Hnin).
    rewrite IH, record_tag_objects by done. rewrite <-app_assoc. f_equal.
    repeat case_decide; simplify_eq; try done; set_solver.
Qed.

Lemma foldl_record_tag_objects_dom tags a p :
  is_Some (objects_map (foldl record a tags) !! p)
  ↔ is_Some (objects_map a !! p) ∨ p ∈ tags.
Proof.
  revert a. induction tags as [|[k0 v0] tags IH]; intros a; cbn [foldl].
  - split; [by left | intros [?|Hin]; [done | by apply elem_of_nil in Hin]].
  - rewrite IH, record_tag_objects_dom, elem_of_cons. tauto.
Qed.
End record_tag_facts.

(** *** One element (lines 39-54) *)

Lemma aggregate_element_fold a elem :
  aggregate_element a elem
  = foldl (record_tag (tag elem) (obj_id_of elem)
                      (get (collect_tags elem) "name")) a (collect_tags elem).
Proof. unfold aggregate_element. by destruct (collect_tags elem). Qed.

Lemma aggregate_element_key_count a elem k :
  counter_get (tag_counts (aggregate_element a elem)) k
  = counter_get (tag_counts a) k
    + (if decide (k ∈ keys (collect_tags elem)) then 1 else 0).
Proof.
  rewrite aggregate_element_fold.
  apply foldl_record_tag_key_count, collect_tags_NoDup.
Qed.

Lemma aggregate_element_value_count a elem k v :
  counter_get (values_for (aggregate_element a elem) k) v
  = counter_get (values_for a k) v
    + (if decide (get (collect_tags elem) k = Some v) then 1 else 0).
Proof.
  rewrite aggregate_element_fold.
  rewrite foldl_record_tag_value_count by apply collect_tags_NoDup.
  f_equal. apply decide_ext, collect_tags_items.
Qed.

Lemma aggregate_element_objects a elem k v :
  objects_for (aggregate_element a elem) k v
  = objects_for a k v
    ++ (if decide (get (collect_tags elem) k = Some v)
        then [entry_of elem] else []).
Proof.
  rewrite aggregate_element_fold.
  rewrite foldl_record_tag_objects by apply collect_tags_NoDup.
  f_equal. apply decide_ext, collect_tags_items.
Qed.

Lemma aggregate_element_objects_dom a elem k v :
  is_Some (objects_map (aggregate_element a elem) !! (k, v))
  ↔ is_Some (objects_map a !! (k, v)) ∨ get (collect_tags elem) k = Some v.
Proof.
  rewrite aggregate_element_fold, foldl_record_tag_objects_dom.
  by rewrite collect_tags_items.
Qed.

Lemma aggregate_element_untagged a elem :
  collect_tags elem = [] → aggregate_element a elem = a.
Proof. intros Hnil. by rewrite aggregate_element_fold, Hnil. Qed.

(** *** The sums of the value counts *)

Lemma sums_agree_init : sums_agree init.
Proof. intros k. simpl. by rewrite !lookup_empty. Qed.

Lemma sums_agree_record_tag t i n a kv :
  sums_agree a → sums_agree (record_tag t i n a kv).
Proof.
  destruct kv as [k v]. intros Ha k'.
  unfold record_tag. cbn [tag_counts values_map].
  destruct (decide (k = k')) as [<-|Hne].
  - unfold counter_incr at 1. rewrite !lookup_insert_eq.
    cbn [fmap option_fmap option_map]. rewrite counter_total_incr.
    do 2 f_equal. unfold counter_get. rewrite (Ha k).
    destruct (values_map a !! k); [done|].
    symmetry. apply counter_total_empty.
  - unfold counter_incr at 1. rewrite !lookup_insert_ne by done. apply Ha.
Qed.

Lemma sums_agree_record_tags t i n tags a :
  sums_agree a → sums_agree (foldl (record_tag t i n) a tags).
Proof.
  revert a. induction tags as [|kv tags IH]; intros a Ha; simpl; [done|].
  by apply IH, sums_agree_record_tag.
Qed.

Lemma sums_agree_aggregate_element a elem :
  sums_agree a → sums_agree (aggregate_element a elem).
Proof. rewrite aggregate_element_fold. apply sums_agree_record_tags. Qed.

Lemma sums_agree_foldl elems a :
  sums_agree a → sums_agree (foldl aggregate_element a elems).
Proof.
  revert a. induction elems as [|e elems IH]; intros a Ha; simpl; [done|].
  by apply IH, sums_agree_aggregate_element.
Qed.

(** *** The run *)

Section run_facts.
Context `{Clock}.
Implicit Types (s : ParseState) (evs : list (Event * Element)).

Lemma parse_event_self callback s ev :
  self (parse_event callback s ev)
  = match processed_by ev with
    | Some elem => aggregate_element (self s) elem
    | None => self s
    end.
Proof.
  destruct ev as [[] elem]; unfold processed_by; simpl; [done|].
  destruct (is_osm_object (tag elem)); [|done].
  destruct callback; [|done]. by destruct (elapsed_gt_half _ _).
Qed.

Lemma parse_events_self callback evs s :
  self (foldl (parse_event callback) s evs)
  = foldl aggregate_element (self s) (omap processed_by evs).
Proof.
  revert s. induction evs as [|ev evs IH]; intros s; csimpl; [done|].
  rewrite IH, parse_event_self. by destruct (processed_by ev).
Qed.

(** The accumulators of the finished parser are those of the processed
    elements, in the order of the traversal. *)
Lemma run_result callback context :
  result (run callback context)
  = foldl aggregate_element init (processed context).
Proof.
  unfold run, _parse, processed.
  destruct (events context) as [|ev rest]; [done|]. cbn [tail].
  change init with (self parse_start).
  rewrite <-(parse_events_self callback rest parse_start).
  destruct (failure context); [done|]. by destruct callback.
Qed.

Lemma parse_event_count callback s ev :
  elements_processed (parse_event callback s ev)
  = elements_processed s + length (from_option (λ e, [e]) [] (processed_by ev)).
Proof.
  destruct ev as [[] elem]; unfold processed_by; simpl; [lia|].
  destruct (is_osm_object (tag elem)); simpl; [|lia].
  destruct callback; [|simpl; lia].
  destruct (elapsed_gt_half _ _); simpl; lia.
Qed.

Lemma parse_events_count callback evs s :
  elements_processed (foldl (parse_event callback) s evs)
  = elements_processed s + length (omap processed_by evs).
Proof.
  revert s. induction evs as [|ev evs IH]; intros s; csimpl; [lia|].
  rewrite IH, parse_event_count. destruct (processed_by ev); csimpl; lia.
Qed.

Lemma Sorted_le_snoc (l : list nat) n m :
  Sorted le l → Forall (λ x, x ≤ n) l → n ≤ m → Sorted le (l ++ [m]).
Proof.
  intros Hs Hall Hle. apply Sorted_snoc; [done|].
  destruct l as [|x l _] using rev_ind; constructor.
  rewrite Forall_app, Forall_singleton in Hall. destruct Hall as [_ Hx]. lia.
Qed.

Lemma progress_ok_event callback s ev :
  progress_ok s → progress_ok (parse_event callback s ev).
Proof.
  intros [Hs Hall]. destruct ev as [[] elem]; simpl; [done|].
  destruct (is_osm_object (tag elem)); [|done].
  assert (Forall (λ n, n ≤ S (elements_processed s)) (reported s)) as Hall'.
  { eapply Forall_impl; [done | simpl; lia]. }
  destruct callback; [|done].
  destruct (elapsed_gt_half _ _); [|done]. split; simpl.
  - by apply Sorted_le_snoc with (elements_processed s); [| |lia].
  - apply Forall_app. split; [done|]. by apply Forall_singleton.
Qed.

Lemma progress_ok_events callback evs s :
  progress_ok s → progress_ok (foldl (parse_event callback) s evs).
Proof.
  revert s. induction evs as [|ev evs IH]; intros s Hs; simpl; [done|].
  by apply IH, progress_ok_event.
Qed.
End run_facts.

Lemma foldl_aggregate_objects elems a k v :
  objects_for (foldl aggregate_element a elems) k v
  = objects_for a k v
    ++ (entry_of <$> filter (λ e, get (collect_tags e) k = Some v) elems).
Proof.
  revert a. induction elems as [|e elems IH]; intros a; simpl.
  - by rewrite app_nil_r.
  - rewrite IH, aggregate_element_objects, <-app_assoc. f_equal.
    rewrite filter_cons. by destruct (decide _).
Qed.

Lemma foldl_aggregate_objects_dom elems a k v :
  is_Some (objects_map (foldl aggregate_element a elems) !! (k, v))
  ↔ is_Some (objects_map a !! (k, v))
    ∨ ∃ e, e ∈ elems ∧ get (collect_tags e) k = Some v.
Proof.
  revert a. induction elems as [|e elems IH]; intros a; simpl.
  - split; [by left | intros [?|(e & He & _)]; [done|]].
    by apply elem_of_nil in He.
  - rewrite IH, aggregate_element_objects_dom. split.
    + intros [[?|?]|(e' & ? & ?)]; [by left | right | right].
      * exists e. split; [left | done].
      * exists e'. split; [by right | done].
    + intros [?|(e' & [->|?]%elem_of_cons & ?)].
      * by left; left.
      * by left; right.
      * right. by exists e'.
Qed.

Lemma objects_for_init k v : objects_for init k v = [].
Proof. unfold objects_for. simpl. by rewrite lookup_empty. Qed.

(** *** The properties of the aggregator *)

(** C1. In the result of a run, a key is present in [tag_counts] exactly when
    it is present in [values_map], and then the sum over all values [v] of
    [values_map[k][v]] equals [tag_counts[k]]. *)
Theorem value_counts_sum_to_key_count `{Clock} callback context :
  ∀ k, tag_counts (result (run callback context)) !! k
       = counter_total <$> values_map (result (run callback context)) !! k.
Proof. rewrite run_result. apply sums_agree_foldl, sums_agree_init. Qed.

(** C2. The bucket of a pair [(k, v)] holds one reference for every
    processed object whose tag mapping has [k] set to [v], in the order of
    the traversal, and nothing else; an object is appended once to the
    bucket of every item of its mapping and to no other bucket, and the
    items are distinct and as many as the mapping has keys; and a pair has a
    bucket only if some processed object carries it. *)
Theorem object_index_one_reference_per_pair `{Clock} callback context :
  (∀ k v, objects_for (result (run callback context)) k v
          = entry_of <$> filter (λ e, get (collect_tags e) k = Some v)
                                (processed context))
  ∧ (∀ a elem,
       NoDup (keys (collect_tags elem))
       ∧ NoDup (collect_tags elem)
       ∧ length (collect_tags elem) = length (keys (collect_tags elem))
       ∧ ∀ k v, objects_for (aggregate_element a elem) k v
                = objects_for a k v
                  ++ (if decide ((k, v) ∈ collect_tags elem)
                      then [entry_of elem] else []))
  ∧ (∀ k v, is_Some (objects_map (result (run callback context)) !! (k, v))
            ↔ ∃ elem, elem ∈ processed context
                      ∧ get (collect_tags elem) k = Some v).
Proof.
  rewrite run_result. split_and!.
  - intros k v. by rewrite foldl_aggregate_objects, objects_for_init.
  - intros a elem. pose proof (collect_tags_NoDup elem) as Hnd. split_and!.
    + done.
    + by apply (NoDup_fmap_1 fst).
    + unfold keys. by rewrite length_fmap.
    + intros k v. rewrite aggregate_element_fold.
      by apply foldl_record_tag_objects.
  - intros k v. rewrite foldl_aggregate_objects_dom. simpl.
    rewrite lookup_empty. split; [intros [[? [=]]|?]; done | by right].
Qed.

(** C3, as the code has it.  The references of a pair's bucket carry the
    display names of the objects listed there; the display name of an object
    is the value of [name] in its tag mapping when the mapping has that key,
    the empty string included, and ["unnamed key-value"] otherwise; so it is
    ["unnamed key-value"] exactly when the mapping has no [name] key or has
    [name] set to that very text. *)
Theorem display_name_from_name_tag `{Clock} callback context :
  (∀ k v, (objects_for (result (run callback context)) k v).*2
          = display_name <$> filter (λ e, get (collect_tags e) k = Some v)
                                    (processed context))
  ∧ ∀ elem,
      (∀ n, get (collect_tags elem) "name" = Some n → display_name elem = n)
      ∧ (get (collect_tags elem) "name" = None → display_name elem = unnamed)
      ∧ (display_name elem = unnamed
         ↔ get (collect_tags elem) "name" = None
           ∨ get (collect_tags elem) "name" = Some unnamed).
Proof.
  split.
  - intros k v. rewrite run_result, foldl_aggregate_objects, objects_for_init.
    rewrite app_nil_l. by rewrite <-list_fmap_compose.
  - intros elem. unfold display_name, entry_of. simpl.
    destruct (get (collect_tags elem) "name") as [n|]; simpl.
    + split_and!; [by intros ? [= ->] | done |].
      split; [intros ->; by right | by intros [?|[= ->]]].
    + split_and!; [done | done | split; [by left | done]].
Qed.

(** C3, as stated, fails: an object whose [name] tag has the value
    ["unnamed key-value"] is recorded under that display name although its
    mapping has a [name] key. *)
Lemma display_name_sentinel_despite_name_tag :
  get (collect_tags sentinel_named) "name" = Some "unnamed key-value"
  ∧ objects_for (result (@run millis_clock true (iterparse sentinel_named_doc)))
                "name" "unnamed key-value"
    = [("node", "7", "unnamed key-value")].
Proof. split; reflexivity. Qed.

(** C4. In a run that ends without an error, the counts the progress
    callback receives never decrease, and the last of them, reported at the
    end, is the number of [node], [way] and [relation] elements processed,
    tagged or not. *)
Theorem progress_counts `{Clock} context :
  error (run true context) = None →
  StronglySorted le (progress (run true context))
  ∧ ∃ earlier,
      progress (run true context) = earlier ++ [length (processed context)].
Proof.
  unfold run, _parse, processed.
  destruct (events context) as [|ev rest]; [done|]. cbn [tail].
  destruct (failure context); [done|]. simpl. intros _.
  set (s := foldl (parse_event true) parse_start rest).
  assert (progress_ok s) as [Hs Hall].
  { apply progress_ok_events. split; constructor. }
  assert (elements_processed s = length (omap processed_by rest)) as <-.
  { unfold s. by rewrite parse_events_count. }
  split; [|by eexists].
  apply Sorted_StronglySorted; [apply _|].
  by apply Sorted_le_snoc with (elements_processed s).
Qed.

(** C4 on the cafe document, with the clock in milliseconds. *)
Lemma progress_counts_witness :
  error (@run millis_clock true (iterparse cafe_doc)) = None
  ∧ StronglySorted le (progress (@run millis_clock true (iterparse cafe_doc)))
  ∧ ∃ earlier,
      progress (@run millis_clock true (iterparse cafe_doc))
      = earlier ++ [length (processed (iterparse cafe_doc))].
Proof.
  split; [reflexivity|].
  apply (@progress_counts millis_clock (iterparse cafe_doc)). reflexivity.
Defined.

(** C5. When the tag children of an object set a key more than once, the
    mapping keeps the last value: the object adds one to the key's count, one
    to the count of that last value and to no other value's, and its
    reference to the bucket of the key with the last value only. *)
Theorem last_write_wins a elem k earlier v :
  tag_values k elem = earlier ++ [v] →
  get (collect_tags elem) k = Some v
  ∧ counter_get (tag_counts (aggregate_element a elem)) k
    = counter_get (tag_counts a) k + 1
  ∧ (∀ v', counter_get (values_for (aggregate_element a elem) k) v'
           = counter_get (values_for a k) v'
             + (if decide (v' = v) then 1 else 0))
  ∧ (∀ v', objects_for (aggregate_element a elem) k v'
           = objects_for a k v'
             ++ (if decide (v' = v) then [entry_of elem] else [])).
Proof.
  intros Hvalues.
  assert (get (collect_tags elem) k = Some v) as Hget.
  { by rewrite collect_tags_get, Hvalues, last_snoc. }
  split_and!; [done | | |].
  - rewrite aggregate_element_key_count, decide_True; [done|].
    apply get_is_Some. by rewrite Hget.
  - intros v'. rewrite aggregate_element_value_count, Hget.
    f_equal. apply decide_ext. split; [by intros [= ->] | by intros ->].
  - intros v'. rewrite aggregate_element_objects, Hget.
    f_equal. apply decide_ext. split; [by intros [= ->] | by intros ->].
Qed.

(** C5 on a way that sets [surface] to [gravel] and then to [asphalt]. *)
Lemma last_write_wins_witness :
  tag_values "surface" repeated_key = ["gravel"] ++ ["asphalt"]
  ∧ get (collect_tags repeated_key) "surface" = Some "asphalt"
  ∧ counter_get (tag_counts (aggregate_element init repeated_key)) "surface"
    = counter_get (tag_counts init) "surface" + 1
  ∧ (∀ v', counter_get (values_for (aggregate_element init repeated_key)
                                   "surface") v'
           = counter_get (values_for init "surface") v'
             + (if decide (v' = "asphalt") then 1 else 0))
  ∧ (∀ v', objects_for (aggregate_element init repeated_key) "surface" v'
           = objects_for init "surface" v'
             ++ (if decide (v' = "asphalt") then [entry_of repeated_key]
                 else [])).
Proof.
  split; [reflexivity|].
  apply (last_write_wins init repeated_key "surface" ["gravel"] "asphalt").
  reflexivity.
Defined.

Lemma collect_tag_ignored tags child :
  attrib child !! "k" = None ∨ attrib child !! "v" = None →
  collect_tag tags child = tags.
Proof.
  unfold collect_tag. intros [Hk|Hv]; destruct (decide _); try done.
  - by rewrite Hk.
  - rewrite Hv. by destruct (attrib child !! "k").
Qed.

Lemma aggregate_element_ext a elem elem' :
  tag elem = tag elem' → attrib elem = attrib elem' →
  collect_tags elem = collect_tags elem' →
  aggregate_element a elem = aggregate_element a elem'.
Proof.
  intros Htag Hattrib Htags. rewrite !aggregate_element_fold.
  unfold obj_id_of. by rewrite Htag, Hattrib, Htags.
Qed.

Lemma foldl_collect_tag_all_ignored cs tags :
  Forall (λ child, tag child = "tag" →
                   attrib child !! "k" = None ∨ attrib child !! "v" = None) cs →
  foldl collect_tag tags cs = tags.
Proof.
  intros Hall. revert tags.
  induction Hall as [|c cs Hc _ IH]; intros tags; simpl; [done|].
  assert (collect_tag tags c = tags) as ->; [|apply IH].
  unfold collect_tag. destruct (decide (tag c = "tag")) as [Htag|]; [|done].
  destruct (Hc Htag) as [Hk|Hv]; [by rewrite Hk|].
  rewrite Hv. by destruct (attrib c !! "k").
Qed.

(** C9. A tag child without [k] or without [v] is ignored: the mapping and
    the effect of the object on the three structures are those of the object
    without that child; and an object all of whose tag children lack [k] or
    [v] has an empty mapping and leaves the three structures as they are. *)
Theorem tag_without_k_or_v_ignored a elem :
  (∀ before bad after,
     children elem = before ++ bad :: after →
     tag bad = "tag" →
     attrib bad !! "k" = None ∨ attrib bad !! "v" = None →
     collect_tags elem
     = collect_tags (mkElement (tag elem) (attrib elem) (before ++ after))
     ∧ aggregate_element a elem
       = aggregate_element a
           (mkElement (tag elem) (attrib elem) (before ++ after)))
  ∧ ((∀ child, child ∈ children elem → tag child = "tag" →
               attrib child !! "k" = None ∨ attrib child !! "v" = None) →
     collect_tags elem = [] ∧ aggregate_element a elem = a).
Proof.
  split.
  - intros before bad after Hchildren _ Hbad.
    assert (collect_tags elem
            = collect_tags (mkElement (tag elem) (attrib elem) (before ++ after)))
      as Htags.
    { unfold collect_tags. rewrite Hchildren. simpl.
      rewrite !foldl_app. simpl. by rewrite collect_tag_ignored. }
    split; [done|]. by apply aggregate_element_ext.
  - intros Hall.
    assert (collect_tags elem = []) as Hnil.
    { apply foldl_collect_tag_all_ignored, Forall_forall. exact Hall. }
    split; [done|]. by apply aggregate_element_untagged.
Qed.

(** C9 on the same way, whose second tag child has no [v]. *)
Lemma tag_without_k_or_v_ignored_witness :
  collect_tags repeated_key
  = collect_tags (mkElement "way" {[ "id" := "9" ]}
                    [tag_kv "surface" "gravel"; tag_kv "surface" "asphalt"])
  ∧ aggregate_element init repeated_key
    = aggregate_element init
        (mkElement "way" {[ "id" := "9" ]}
           [tag_kv "surface" "gravel"; tag_kv "surface" "asphalt"]).
Proof.
  apply (proj1 (tag_without_k_or_v_ignored init repeated_key)
           [tag_kv "surface" "gravel"]
           (mkElement "tag" {[ "k" := "lit" ]} [])
           [tag_kv "surface" "asphalt"]).
  - reflexivity.
  - reflexivity.
  - right. reflexivity.
Defined.

(** ** The citation line *)

(** C8, as the code has it.  The line for a tuple [(typ, oid, name)] is
    ["* {{"], the capitalized [typ], ["|"], [oid], ["|"], the name, ["}}"],
    where an empty name is replaced by ["unnamed key-value"]; capitalizing
    puts the first letter in upper case and the others in lower case, so
    the three kinds read [Node], [Way] and [Relation]. *)
Theorem format_object_template typ oid name :
  _format_object (typ, oid, name)
  = Some ("* {{" +:+ capitalize typ +:+ "|" +:+ oid +:+ "|"
          +:+ (if decide (name = "") then unnamed else name) +:+ "}}")
  ∧ capitalize "node" = "Node"
  ∧ capitalize "way" = "Way"
  ∧ capitalize "relation" = "Relation".
Proof.
  split; [|by split_and!].
  unfold _format_object. destruct name as [|c name]; reflexivity.
Qed.

(** C8, as stated, fails on a tuple whose name is empty (the name [_parse]
    records for a [name] tag with an empty value): the line shows
    ["unnamed key-value"] where the template with the name as given has
    nothing between the last bar and the closing braces. *)
Lemma format_object_empty_name :
  _format_object ("node", "1", "") = Some "* {{Node|1|unnamed key-value}}"
  ∧ "* {{" +:+ capitalize "node" +:+ "|" +:+ "1" +:+ "|" +:+ "" +:+ "}}"
    = "* {{Node|1|}}".
Proof. split; reflexivity. Qed.

(** ** The analyzer *)

Lemma count_of_incr c k k' :
  count_of (incr c k) k'
  = count_of c k' + (if decide (k = k') then 1 else 0).
Proof.
  unfold incr, count_of at 1. rewrite get_set.
  destruct (decide (k = k')) as [->|_]; simpl; [done|].
  unfold count_of. lia.
Qed.

Lemma count_tag_count c child k :
  count_of (count_tag c child) k
  = count_of c k
    + (if truthy (Some k)
       then (if decide (attrib child !! "k" = Some k) then 1 else 0)
       else 0).
Proof.
  unfold count_tag. destruct (attrib child !! "k") as [k'|] eqn:Hk.
  - destruct k' as [|ch k'].
    + cbn [truthy]. destruct k; cbn [truthy]; [lia|].
      rewrite decide_False by done. lia.
    + cbn [truthy]. rewrite count_of_incr.
      destruct (decide (String ch k' = k)) as [<-|Hne]; cbn [truthy].
      * by rewrite decide_True.
      * rewrite decide_False by congruence. by destruct k.
  - rewrite decide_False by done. destruct (truthy (Some k)); lia.
Qed.

Lemma foldl_count_tag cs c k :
  count_of (foldl count_tag c cs) k
  = count_of c k
    + (if truthy (Some k)
       then length (filter (λ child, attrib child !! "k" = Some k) cs)
       else 0).
Proof.
  revert c. induction cs as [|child cs IH]; intros c; cbn [foldl].
  - destruct (truthy (Some k)); simpl; lia.
  - rewrite IH, count_tag_count, filter_cons.
    destruct (truthy (Some k)); [|lia].
    destruct (decide (attrib child !! "k" = Some k)); simpl; lia.
Qed.

Lemma key_occurrences_nil k : key_occurrences k [] = 0.
Proof. unfold key_occurrences. by destruct (truthy (Some k)). Qed.

Lemma key_occurrences_cons k elem elems :
  key_occurrences k (elem :: elems)
  = key_occurrences k [elem] + key_occurrences k elems.
Proof.
  unfold key_occurrences. destruct (truthy (Some k)); [|done].
  by rewrite bind_cons, bind_singleton, filter_app, length_app.
Qed.

Section analyzer_facts.
Context `{Datetime}.
Implicit Types (st : Analysis) (elem : Element).

Lemma collect_tag_keys_count st elem k :
  count_of (tags_counter (collect_tag_keys st elem)) k
  = count_of (tags_counter st) k + key_occurrences k [elem].
Proof.
  unfold collect_tag_keys, key_occurrences. cbn [tags_counter].
  rewrite foldl_count_tag. by rewrite bind_singleton.
Qed.

Lemma collect_metadata_skip st elem :
  contributes elem = false → collect_metadata st elem = inr st.
Proof. unfold collect_metadata. by intros ->. Qed.

Lemma collect_metadata_tags_counter st elem st' :
  collect_metadata st elem = inr st' → tags_counter st' = tags_counter st.
Proof.
  unfold collect_metadata. destruct (contributes elem); [|by intros [= <-]].
  destruct (attrib elem !! "timestamp") as [ts|]; [|by intros [= <-]].
  destruct (attrib elem !! "user") as [user|]; [|by intros [= <-]].
  destruct (fromisoformat _); [done | by intros [= <-]].
Qed.

(** The tag counter after the loop counts every occurrence of a key on the
    objects, whatever else the objects carry. *)
Lemma analyze_loop_tags_counter elems st st' k :
  analyze_loop st elems = inr st' →
  count_of (tags_counter st') k
  = count_of (tags_counter st) k
    + key_occurrences k (filter (λ e, is_osm_object (tag e) = true) elems).
Proof.
  revert st. induction elems as [|elem elems IH]; intros st; cbn [analyze_loop].
  - intros [= <-]. rewrite filter_nil, key_occurrences_nil. lia.
  - unfold analyze_element. rewrite filter_cons.
    destruct (is_osm_object (tag elem)) eqn:Hosm.
    + rewrite decide_True by done.
      destruct (collect_metadata st elem) as [e|st1] eqn:Hmeta; [done|].
      intros Hloop. rewrite (IH _ Hloop), collect_tag_keys_count.
      rewrite (collect_metadata_tags_counter _ _ _ Hmeta).
      rewrite (key_occurrences_cons k elem (filter _ _)). lia.
    + rewrite decide_False by done. apply IH.
Qed.

(** Objects that do not contribute leave the list of timestamps empty. *)
Lemma analyze_loop_no_timestamps elems st :
  Forall (λ elem, is_osm_object (tag elem) = true → contributes elem = false)
         elems →
  ∃ st', analyze_loop st elems = inr st' ∧ timestamps st' = timestamps st.
Proof.
  intros Hall. revert st.
  induction Hall as [|elem elems Helem _ IH]; intros st; cbn [analyze_loop].
  - by exists st.
  - unfold analyze_element. destruct (is_osm_object (tag elem)); [|apply IH].
    rewrite collect_metadata_skip by by apply Helem.
    destruct (IH (collect_tag_keys st elem)) as (st' & Hloop & Hts).
    by exists st'.
Qed.

(** Line 39 raises on an empty list of timestamps. *)
Lemma analyze_empty_timestamps root st :
  analyze_loop analysis_start (children root) = inr st →
  timestamps st = [] →
  analyze_osm_xml root = inl (ValueError "min() arg is an empty sequence").
Proof. unfold analyze_osm_xml. by intros -> ->. Qed.
End analyzer_facts.

(** *** The properties of the analyzer *)

(** C6. When no object of the document has both a timestamp and a user,
    the loop ends with an empty list of timestamps and the analyzer raises
    a [ValueError], that of [min] on an empty list: it returns no report. *)
Theorem analyzer_fails_without_timestamps `{Datetime} root :
  Forall (λ elem, contributes elem = false) (osm_objects root) →
  (∃ st, analyze_loop analysis_start (children root) = inr st
         ∧ timestamps st = [])
  ∧ ∃ msg, analyze_osm_xml root = inl (ValueError msg).
Proof.
  intros Hall.
  destruct (analyze_loop_no_timestamps (children root) analysis_start)
    as (st & Hloop & Hts).
  { apply Forall_forall. intros elem Hin Hosm.
    rewrite Forall_forall in Hall. apply Hall.
    apply list_elem_of_filter. by split. }
  split; [by exists st|]. eexists. by apply (analyze_empty_timestamps root st).
Qed.

(** C6 on the cafe document, which has no timestamp and no user. *)
Lemma analyzer_fails_without_timestamps_witness :
  Forall (λ elem, contributes elem = false) (osm_objects cafe_doc)
  ∧ (∃ st, @analyze_loop Utc.utc analysis_start (children cafe_doc) = inr st
           ∧ timestamps st = [])
  ∧ ∃ msg, @analyze_osm_xml Utc.utc cafe_doc = inl (ValueError msg).
Proof.
  assert (Forall (λ elem, contributes elem = false) (osm_objects cafe_doc))
    as Hall by (repeat constructor).
  split; [exact Hall|].
  exact (@analyzer_fails_without_timestamps Utc.utc cafe_doc Hall).
Defined.

(** C7, as the code has it.  An object counts for the contributor
    aggregates exactly when its [timestamp] and [user] attributes are both
    present and not empty.  An object for which they are not leaves the
    timestamps, the edit counts and the timestamps per user as they were;
    one for which they are, with a timestamp that parses, adds its instant
    to the timestamps and to those of its user and one to the edits of its
    user, and one whose timestamp does not parse fails the run.  In every
    case that does not fail, the tag counter grows by the tag children of
    the object. *)
Theorem metadata_needs_timestamp_and_user `{Datetime} st elem :
  is_osm_object (tag elem) = true →
  (contributes elem = true
   ↔ ∃ ts user, attrib elem !! "timestamp" = Some ts ∧ ts ≠ ""
                ∧ attrib elem !! "user" = Some user ∧ user ≠ "")
  ∧ (contributes elem = false →
     ∃ st', analyze_element st elem = inr st'
       ∧ timestamps st' = timestamps st
       ∧ contributors st' = contributors st
       ∧ contrib_timestamps st' = contrib_timestamps st
       ∧ ∀ k, count_of (tags_counter st') k
              = count_of (tags_counter st) k + key_occurrences k [elem])
  ∧ (∀ ts user,
       attrib elem !! "timestamp" = Some ts → ts ≠ "" →
       attrib elem !! "user" = Some user → user ≠ "" →
       match fromisoformat (replace_Z ts) with
       | inr dt =>
           ∃ st', analyze_element st elem = inr st'
             ∧ timestamps st' = timestamps st ++ [dt]
             ∧ (∀ u, count_of (contributors st') u
                     = count_of (contributors st) u
                       + (if decide (user = u) then 1 else 0))
             ∧ (∀ u, default [] (get (contrib_timestamps st') u)
                     = default [] (get (contrib_timestamps st) u)
                       ++ (if decide (user = u) then [dt] else []))
             ∧ ∀ k, count_of (tags_counter st') k
                    = count_of (tags_counter st) k + key_occurrences k [elem]
       | inl msg => analyze_element st elem = inl (ValueError msg)
       end).
Proof.
  intros Hosm. unfold analyze_element. rewrite Hosm. split_and!.
  - unfold contributes.
    destruct (attrib elem !! "timestamp") as [[|c ts]|],
             (attrib elem !! "user") as [[|c' user]|]; simpl;
      (split; [try done; intros _; by eexists _, _
              | try done; intros (? & ? & ? & ? & ? & ?); congruence]).
  - intros Hskip. rewrite collect_metadata_skip by done.
    eexists. split_and!; try done. apply collect_tag_keys_count.
  - intros ts user Hts Hts_ne Huser Huser_ne.
    unfold collect_metadata, contributes. rewrite Hts, Huser.
    destruct ts as [|c ts]; [done|]. destruct user as [|c' user]; [done|].
    cbn [truthy andb].
    destruct (fromisoformat _) as [msg|dt]; [done|].
    eexists. split_and!; [done | done | | |].
    + intros u. cbn [contributors]. apply count_of_incr.
    + intros u. unfold collect_tag_keys. cbn [contrib_timestamps].
      rewrite get_set.
      destruct (decide (String c' user = u)) as [<-|_]; [done|].
      by rewrite app_nil_r.
    + intros k. by rewrite collect_tag_keys_count.
Qed.

(** C7 on a relation with a timestamp and no user, beside a node by alice
    that is accumulated. *)
Lemma metadata_needs_timestamp_and_user_witness :
  (∃ st', @analyze_element Utc.utc analysis_start no_user = inr st'
     ∧ timestamps st' = timestamps analysis_start
     ∧ contributors st' = contributors analysis_start
     ∧ contrib_timestamps st' = contrib_timestamps analysis_start
     ∧ ∀ k, count_of (tags_counter st') k
            = count_of (tags_counter analysis_start) k
              + key_occurrences k [no_user])
  ∧ @analyze_element Utc.utc analysis_start by_alice
    = inr (@mkAnalysis Utc.utc [1577836800%Z] [("alice", 1)]
             [("amenity", 1)] [("alice", [1577836800%Z])]).
Proof.
  split; [|reflexivity].
  apply (proj1 (proj2 (@metadata_needs_timestamp_and_user Utc.utc
                         analysis_start no_user eq_refl))).
  reflexivity.
Defined.

(** C7, as stated, fails: a node whose [timestamp] and [user] attributes
    are both present, the user being the empty text, leaves every aggregate
    as it was. *)
Lemma empty_user_not_accumulated :
  attrib empty_user !! "timestamp" = Some "2020-01-01T00:00:00Z"
  ∧ attrib empty_user !! "user" = Some ""
  ∧ @analyze_element Utc.utc analysis_start empty_user = inr analysis_start.
Proof. split_and!; reflexivity. Qed.

(** C10. After the loop, the tag counter holds for every non-empty key the
    number of tag children of the document's objects that name it in their
    [k] attribute, each occurrence counted, with or without a [v] and also
    when an object repeats the key; the empty key is not counted. *)
Theorem tag_counter_counts_occurrences `{Datetime} root st :
  analyze_loop analysis_start (children root) = inr st →
  ∀ k, count_of (tags_counter st) k
       = if truthy (Some k)
         then length (filter (λ child, attrib child !! "k" = Some k)
                             (osm_objects root ≫= findall "tag"))
         else 0.
Proof.
  intros Hloop k.
  by rewrite (analyze_loop_tags_counter _ _ _ k Hloop).
Qed.

(** C10 on the way that sets [surface] twice and [lit] without a value: the
    analyzer counts 2 and 1 where the aggregator counts 1 and nothing. *)
Lemma tag_counter_counts_occurrences_witness :
  @analyze_loop Utc.utc analysis_start (children repeated_key_doc)
  = inr (@mkAnalysis Utc.utc [] [] [("surface", 2); ("lit", 1)] [])
  ∧ (∀ k, count_of [("surface", 2); ("lit", 1)] k
          = if truthy (Some k)
            then length (filter (λ child, attrib child !! "k" = Some k)
                                (osm_objects repeated_key_doc ≫= findall "tag"))
            else 0)
  ∧ tag_counts (aggregate_element init repeated_key) !! "surface" = Some 1
  ∧ tag_counts (aggregate_element init repeated_key) !! "lit" = None.
Proof.
  split; [reflexivity|]. split; [|split; reflexivity].
  apply (@tag_counter_counts_occurrences Utc.utc repeated_key_doc
           (@mkAnalysis Utc.utc [] [] [("surface", 2); ("lit", 1)] [])).
  reflexivity.
Defined.

(** ** The two programs on the example documents *)

Example cafe_key_counts :
  map_to_list (tag_counts (result (run true (iterparse cafe_doc))))
  = [("amenity", 2); ("name", 1)].
Proof. reflexivity. Qed.

Example cafe_objects :
  objects_for (result (run true (iterparse cafe_doc))) "amenity" "cafe"
  = [("node", "1", "Cafe"); ("way", "2", "unnamed key-value")]
  ∧ _format_object ("node", "1", "Cafe") = Some "* {{Node|1|Cafe}}".
Proof. split; reflexivity. Qed.

Example cafe_progress :
  progress (run true (iterparse cafe_doc)) = [2; 2]
  ∧ progress (run false (iterparse cafe_doc)) = []
  ∧ error (run true (mkContext (iterparse_events cafe_doc)
                               (Some (ParseError "no element found"))))
    = Some (ParseError "no element found").
Proof. split_and!; reflexivity. Qed.

Example edits_report :
  analyze_osm_xml edits_doc
  = inr {| oldest := 1561896000%Z;
           newest := 1577923210%Z;
           top_tags := [("amenity", 3); ("name", 1)];
           top_contribs := [("alice", 2); ("bob", 1)];
           lifespan_ranked := [("alice", 86410%Z); ("bob", 0%Z)] |}.
Proof. reflexivity. Qed.

(** * Further properties *)

(** ** The aggregator: progress reports *)

Section progress_facts.
Context `{Clock}.
Implicit Types (s : ParseState) (evs : list (Event * Element)).

Lemma parse_events_silent evs s :
  reported (foldl (parse_event false) s evs) = reported s.
Proof.
  revert s. induction evs as [|[[] elem] evs IH]; intros s; simpl.
  - done.
  - apply IH.
  - rewrite IH. by destruct (is_osm_object (tag elem)).
Qed.



End progress_facts.



(** X2. Without a progress callback nothing is reported, whatever the
    clock says. *)
Theorem no_callback_no_progress `{Clock} (context : Context) :
  progress (run false context) = [].
Proof.
  unfold run, _parse. destruct (events context) as [|ev rest]; [done|].
  destruct (failure context); simpl; apply parse_events_silent.
Qed.


(** ** The aggregator: what the three structures hold *)

Lemma foldl_aggregate_key_count elems a k :
  counter_get (tag_counts (foldl aggregate_element a elems)) k
  = counter_get (tag_counts a) k
    + length (filter (λ e, k ∈ keys (collect_tags e)) elems).
Proof.
  revert a. induction elems as [|e elems IH]; intros a; simpl; [lia|].
  rewrite IH, aggregate_element_key_count, filter_cons.
  destruct (decide (k ∈ keys (collect_tags e))); simpl; lia.
Qed.

Lemma foldl_aggregate_value_count elems a k v :
  counter_get (values_for (foldl aggregate_element a elems) k) v
  = counter_get (values_for a k) v
    + length (filter (λ e, get (collect_tags e) k = Some v) elems).
Proof.
  revert a. induction elems as [|e elems IH]; intros a; simpl; [lia|].
  rewrite IH, aggregate_element_value_count, filter_cons.
  destruct (decide (get (collect_tags e) k = Some v)); simpl; lia.
Qed.

Lemma buckets_agree_foldl elems a :
  buckets_agree a → buckets_agree (foldl aggregate_element a elems).
Proof.
  intros Ha k v.
  rewrite foldl_aggregate_objects, foldl_aggregate_value_count.
  by rewrite length_app, length_fmap, Ha.
Qed.

Lemma entries_positive_init : entries_positive init.
Proof. split_and!; intros ? ?; simpl; by rewrite lookup_empty. Qed.

Lemma entries_positive_record_tag t i n a kv :
  entries_positive a → entries_positive (record_tag t i n a kv).
Proof.
  destruct kv as [k v]. intros (Hkeys & Hvalues & Hobjects).
  unfold record_tag. split_and!; cbn [tag_counts values_map objects_map].
  - intros k' c. unfold counter_incr. rewrite lookup_insert.
    destruct (decide (k = k')); [intros [= <-]; lia | apply Hkeys].
  - intros k' m. rewrite lookup_insert.
    destruct (decide (k = k')) as [<-|]; [|apply Hvalues].
    intros [= <-]. split; [apply insert_non_empty|].
    intros v' c. unfold counter_incr. rewrite lookup_insert.
    destruct (decide (v = v')); [intros [= <-]; lia|].
    destruct (values_map a !! k) as [m0|] eqn:Hm0; simpl.
    + by apply (Hvalues k m0).
    + by rewrite lookup_empty.
  - intros p l. rewrite lookup_insert.
    destruct (decide ((k, v) = p)); [|apply Hobjects].
    intros [= <-]. by destruct (default [] _).
Qed.

Lemma entries_positive_foldl elems a :
  entries_positive a → entries_positive (foldl aggregate_element a elems).
Proof.
  revert a. induction elems as [|e elems IH]; intros a Ha; simpl; [done|].
  apply IH. rewrite aggregate_element_fold.
  generalize (get (collect_tags e) "name"). intros n.
  revert a Ha. induction (collect_tags e) as [|kv tags IHt]; intros a Ha.
  - done.
  - simpl. by apply IHt, entries_positive_record_tag.
Qed.

Lemma processed_is_osm context elem :
  elem ∈ processed context → is_osm_object (tag elem) = true.
Proof.
  unfold processed. rewrite list_elem_of_omap.
  intros ([ev e] & _ & Hev). unfold processed_by in Hev. simpl in Hev.
  destruct ev; [done|].
  destruct (is_osm_object (tag e)) eqn:Hosm; [|done]. by injection Hev as <-.
Qed.

Lemma processed_app_events context context' more :
  events context' = events context ++ more →
  processed context `prefix_of` processed context'.
Proof.
  unfold processed. intros ->. destruct (events context) as [|ev evs].
  - apply prefix_nil.
  - simpl. rewrite omap_app. by apply prefix_app_r.
Qed.

(** X4. For every pair, the number of objects listed is the count of the
    value under its key, and both are the number of processed objects whose
    mapping has the pair. *)
Theorem bucket_length_is_value_count `{Clock} callback context k v :
  length (objects_for (result (run callback context)) k v)
  = counter_get (values_for (result (run callback context)) k) v
  ∧ counter_get (values_for (result (run callback context)) k) v
    = length (filter (λ e, get (collect_tags e) k = Some v)
                     (processed context)).
Proof.
  rewrite run_result. split.
  - apply buckets_agree_foldl. intros k' v'.
    rewrite objects_for_init. unfold values_for, counter_get. simpl.
    by rewrite !lookup_empty.
  - rewrite foldl_aggregate_value_count.
    unfold values_for, counter_get. simpl. by rewrite !lookup_empty.
Qed.

(** X5. The count of a key is the number of processed objects whose mapping
    has the key, however many tag children of an object name it. *)
Theorem key_count_is_objects_with_key `{Clock} callback context k :
  counter_get (tag_counts (result (run callback context))) k
  = length (filter (λ e, k ∈ keys (collect_tags e)) (processed context)).
Proof.
  rewrite run_result, foldl_aggregate_key_count.
  unfold counter_get. simpl. by rewrite lookup_empty.
Qed.

(** X6. Whatever is present in the result has been counted: a key present in
    [tag_counts] has a count of at least 1, a key present in [values_map]
    has a non-empty counter whose counts are at least 1, and a pair present
    in [objects_map] lists at least one object. *)
Theorem result_entries_positive `{Clock} callback context :
  (∀ k n, tag_counts (result (run callback context)) !! k = Some n → 1 ≤ n)
  ∧ (∀ k m, values_map (result (run callback context)) !! k = Some m →
            m ≠ ∅ ∧ ∀ v c, m !! v = Some c → 1 ≤ c)
  ∧ (∀ p l, objects_map (result (run callback context)) !! p = Some l →
            l ≠ []).
Proof.
  rewrite run_result.
  apply (entries_positive_foldl (processed context) init entries_positive_init).
Qed.

(** X7. The structures only grow during the traversal: after more events,
    every bucket extends the bucket it was and no count is smaller. *)
Theorem aggregates_grow `{Clock} callback callback' context context' more k v :
  events context' = events context ++ more →
  objects_for (result (run callback context)) k v
  `prefix_of` objects_for (result (run callback' context')) k v
  ∧ counter_get (tag_counts (result (run callback context))) k
    ≤ counter_get (tag_counts (result (run callback' context'))) k
  ∧ counter_get (values_for (result (run callback context)) k) v
    ≤ counter_get (values_for (result (run callback' context')) k) v.
Proof.
  intros [later Hlater]%processed_app_events.
  rewrite !run_result, Hlater, foldl_app. split_and!.
  - rewrite (foldl_aggregate_objects later). by apply prefix_app_r.
  - rewrite (foldl_aggregate_key_count later). lia.
  - rewrite (foldl_aggregate_value_count later). lia.
Qed.

(** X7 on the cafe document: the run that fails after the node against the
    run on the whole document. *)
Lemma aggregates_grow_witness :
  objects_for (result (run true cafe_cut)) "amenity" "cafe"
  `prefix_of` objects_for (result (run true (iterparse cafe_doc)))
                          "amenity" "cafe"
  ∧ counter_get (tag_counts (result (run true cafe_cut))) "amenity"
    ≤ counter_get (tag_counts (result (run true (iterparse cafe_doc))))
                  "amenity"
  ∧ counter_get (values_for (result (run true cafe_cut)) "amenity") "cafe"
    ≤ counter_get (values_for (result (run true (iterparse cafe_doc)))
                              "amenity") "cafe".
Proof.
  apply (@aggregates_grow millis_clock true true cafe_cut (iterparse cafe_doc)
           (drop 7 (iterparse_events cafe_doc)) "amenity" "cafe").
  reflexivity.
Defined.

Lemma foldl_aggregate_tagged elems a :
  foldl aggregate_element a elems
  = foldl aggregate_element a (filter (λ e, collect_tags e ≠ []) elems).
Proof.
  revert a. induction elems as [|e elems IH]; intros a; [done|].
  rewrite filter_cons. cbn [foldl].
  destruct (decide (collect_tags e ≠ [])) as [|Hnil]; cbn [foldl]; [done|].
  rewrite aggregate_element_untagged; [done|].
  by destruct (collect_tags e); [|destruct Hnil].
Qed.

(** X8. Objects without a valid tag, start events and elements that are not
    OSM objects leave no trace: the result is that of the processed objects
    with a non-empty mapping alone. *)
Theorem untagged_objects_leave_no_trace `{Clock} callback context :
  result (run callback context)
  = foldl aggregate_element init
          (filter (λ e, collect_tags e ≠ []) (processed context)).
Proof. rewrite run_result. apply foldl_aggregate_tagged. Qed.

(** X9. The citation line of every object listed in a bucket names a
    processed object that carries the pair: it reads [Node], [Way] or
    [Relation], the object's id, and the object's [name] tag when that is
    present and not empty, ["unnamed key-value"] otherwise. *)
Theorem citation_of_listed_object `{Clock} callback context k v entry :
  entry ∈ objects_for (result (run callback context)) k v →
  ∃ elem kind,
    elem ∈ processed context
    ∧ get (collect_tags elem) k = Some v
    ∧ kind = capitalize (tag elem)
    ∧ kind ∈ ["Node"; "Way"; "Relation"]
    ∧ _format_object entry
      = Some ("* {{" +:+ kind +:+ "|" +:+ obj_id_of elem +:+ "|"
              +:+ (if truthy (get (collect_tags elem) "name")
                   then default unnamed (get (collect_tags elem) "name")
                   else unnamed)
              +:+ "}}").
Proof.
  rewrite run_result, foldl_aggregate_objects, objects_for_init, app_nil_l.
  intros (elem & -> & [Hcarries Hin]%list_elem_of_filter)%list_elem_of_fmap.
  pose proof (processed_is_osm _ _ Hin) as Hosm.
  apply bool_decide_eq_true in Hosm.
  exists elem, (capitalize (tag elem)). split_and!; [done | done | done | |].
  - repeat (apply elem_of_cons in Hosm as [->|Hosm]; [set_solver|]).
    by apply elem_of_nil in Hosm.
  - unfold _format_object, entry_of.
    destruct (get (collect_tags elem) "name") as [[|c n]|]; reflexivity.
Qed.

(** X9 on the way of the cafe document, which has no name. *)
Lemma citation_of_listed_object_witness :
  ∃ elem kind,
    elem ∈ processed (iterparse cafe_doc)
    ∧ get (collect_tags elem) "amenity" = Some "cafe"
    ∧ kind = capitalize (tag elem)
    ∧ kind ∈ ["Node"; "Way"; "Relation"]
    ∧ _format_object ("way", "2", "unnamed key-value")
      = Some ("* {{" +:+ kind +:+ "|" +:+ obj_id_of elem +:+ "|"
              +:+ (if truthy (get (collect_tags elem) "name")
                   then default unnamed (get (collect_tags elem) "name")
                   else unnamed)
              +:+ "}}").
Proof.
  apply (@citation_of_listed_object millis_clock true (iterparse cafe_doc)
           "amenity" "cafe" ("way", "2", "unnamed key-value")).
  right. left.
Defined.

(** *** The totals of the status line *)

Lemma counter_total_record_tags t i n tags a :
  counter_total (tag_counts (foldl (record_tag t i n) a tags))
  = counter_total (tag_counts a) + length tags.
Proof.
  revert a. induction tags as [|[k v] tags IH]; intros a; cbn [foldl length].
  - by rewrite Nat.add_0_r.
  - rewrite IH. cbn [record_tag tag_counts]. rewrite counter_total_incr. lia.
Qed.

Lemma dom_record_tags t i n tags a :
  dom (tag_counts (foldl (record_tag t i n) a tags))
  = dom (tag_counts a) ∪ list_to_set (keys tags).
Proof.
  revert a. induction tags as [|[k v] tags IH]; intros a; simpl.
  - set_solver.
  - rewrite IH. cbn [record_tag tag_counts]. unfold counter_incr.
    rewrite dom_insert_L. set_solver.
Qed.

Lemma foldl_aggregate_total elems a :
  counter_total (tag_counts (foldl aggregate_element a elems))
  = counter_total (tag_counts a)
    + sum_list_with (λ e, length (collect_tags e)) elems.
Proof.
  revert a. induction elems as [|e elems IH]; intros a; simpl.
  - by rewrite Nat.add_0_r.
  - rewrite IH, aggregate_element_fold, counter_total_record_tags. lia.
Qed.

Lemma tagged_le_tags (elems : list Element) :
  length (filter (λ e, collect_tags e ≠ []) elems)
  ≤ sum_list_with (λ e, length (collect_tags e)) elems.
Proof.
  induction elems as [|e elems IH]; simpl; [lia|].
  rewrite filter_cons.
  destruct (decide (collect_tags e ≠ [])) as [Hne|]; simpl; [|lia].
  destruct (collect_tags e); [done|]. simpl. lia.
Qed.

Lemma foldl_aggregate_dom elems a :
  dom (tag_counts (foldl aggregate_element a elems))
  = dom (tag_counts a)
    ∪ list_to_set (elems ≫= (λ e, keys (collect_tags e))).
Proof.
  revert a. induction elems as [|e elems IH]; intros a; cbn [foldl].
  - set_solver.
  - rewrite IH, aggregate_element_fold, dom_record_tags, bind_cons.
    rewrite list_to_set_app_L. set_solver.
Qed.

(** X10. The number that the status line shows as tagged objects is the
    number of tags of the processed objects (the sizes of their mappings
    added up), which is at least the number of tagged objects; the number it
    shows as distinct tag keys is the number of different keys of these
    mappings. *)
Theorem status_totals_count_tags `{Clock} callback context :
  total_objs (result (run callback context))
  = sum_list_with (λ e, length (collect_tags e)) (processed context)
  ∧ total_keys (result (run callback context))
    = size (list_to_set (C := gset string)
              (processed context ≫= (λ e, keys (collect_tags e))))
  ∧ length (filter (λ e, collect_tags e ≠ []) (processed context))
    ≤ total_objs (result (run callback context)).
Proof.
  unfold total_objs, total_keys. rewrite run_result.
  rewrite foldl_aggregate_total, <-size_dom, foldl_aggregate_dom. simpl.
  rewrite counter_total_empty, dom_empty_L, (left_id_L ∅ (∪)).
  split_and!; [done | done | apply tagged_le_tags].
Qed.

(** ** The analyzer: what it reads *)

Lemma replace_Z_app s1 s2 :
  replace_Z (s1 +:+ s2) = replace_Z s1 +:+ replace_Z s2.
Proof.
  induction s1 as [|c s1 IH]; simpl; [done|].
  rewrite IH. by destruct (decide (c = "Z"%char)).
Qed.

Section analyzer_reading.
Context `{Datetime}.
Implicit Types (st : Analysis) (elem : Element).

Lemma analyze_loop_osm_objects elems st :
  analyze_loop st elems
  = analyze_loop st (filter (λ e, is_osm_object (tag e) = true) elems).
Proof.
  revert st. induction elems as [|elem elems IH]; intros st; [done|].
  rewrite filter_cons. cbn [analyze_loop]. unfold analyze_element at 1.
  destruct (is_osm_object (tag elem)) eqn:Hosm.
  - rewrite decide_True by done. cbn [analyze_loop].
    unfold analyze_element. rewrite Hosm.
    destruct (collect_metadata st elem); [done | apply IH].
  - rewrite decide_False by done. apply IH.
Qed.

Lemma analyze_loop_app elems1 elems2 st :
  analyze_loop st (elems1 ++ elems2)
  = match analyze_loop st elems1 with
    | inl e => inl e
    | inr st' => analyze_loop st' elems2
    end.
Proof.
  revert st. induction elems1 as [|elem elems1 IH]; intros st; simpl; [done|].
  destruct (analyze_element st elem); [done | apply IH].
Qed.
End analyzer_reading.

(** X11. Children of the root that are not [node], [way] or [relation]
    elements do not change what the analyzer returns. *)
Theorem analyzer_reads_osm_objects_only `{Datetime} root :
  analyze_osm_xml root
  = analyze_osm_xml (mkElement (tag root) (attrib root) (osm_objects root)).
Proof.
  unfold analyze_osm_xml, osm_objects. simpl.
  by rewrite <-analyze_loop_osm_objects.
Qed.

(** X12. The analyzer stops at the first object, in document order, whose
    timestamp [fromisoformat] rejects: it raises that [ValueError], whatever
    follows in the document. *)
Theorem first_bad_timestamp_aborts `{Datetime} root before bad after st ts msg :
  children root = before ++ bad :: after →
  analyze_loop analysis_start before = inr st →
  is_osm_object (tag bad) = true →
  contributes bad = true →
  attrib bad !! "timestamp" = Some ts →
  fromisoformat (replace_Z ts) = inl msg →
  analyze_osm_xml root = inl (ValueError msg).
Proof.
  intros Hchildren Hbefore Hosm Hcontributes Hts Hbad.
  unfold analyze_osm_xml. rewrite Hchildren, analyze_loop_app, Hbefore.
  cbn [analyze_loop]. unfold analyze_element, collect_metadata.
  rewrite Hosm, Hcontributes, Hts.
  unfold contributes in Hcontributes. rewrite Hts in Hcontributes.
  destruct (attrib bad !! "user"); [|by destruct ts].
  by rewrite Hbad.
Qed.

(** X12 on a document with the node by alice, a node whose timestamp has no
    such month, and the node by alice again. *)
Lemma first_bad_timestamp_aborts_witness :
  analyze_osm_xml (mkElement "osm" ∅ [by_alice; bad_month; by_alice])
  = inl (ValueError "Invalid isoformat string: '2020-13-01T00:00:00+00:00'").
Proof.
  apply (@first_bad_timestamp_aborts Utc.utc
           (mkElement "osm" ∅ [by_alice; bad_month; by_alice])
           [by_alice] bad_month [by_alice]
           (@mkAnalysis Utc.utc [1577836800%Z] [("alice", 1)]
              [("amenity", 1)] [("alice", [1577836800%Z])])
           "2020-13-01T00:00:00Z"); reflexivity.
Defined.

(** X13. A timestamp ending in [Z] is read as the same text ending in
    [+00:00]: the two objects have the same effect on the analysis. *)
Theorem trailing_Z_is_utc `{Datetime} st t a cs ts :
  analyze_element st (mkElement t (<["timestamp" := ts +:+ "Z"]> a) cs)
  = analyze_element st (mkElement t (<["timestamp" := ts +:+ "+00:00"]> a) cs).
Proof.
  unfold analyze_element, collect_metadata, contributes, collect_tag_keys,
    findall. simpl.
  destruct (is_osm_object t); [|done].
  rewrite !lookup_insert_eq, !(lookup_insert_ne _ "timestamp" "user") by done.
  rewrite !replace_Z_app.
  assert (truthy (Some (ts +:+ "Z")) = truthy (Some (ts +:+ "+00:00"))) as ->.
  { by destruct ts. }
  done.
Qed.

(** ** The analyzer: edits and timestamps *)

Lemma sum_counts_set (c : odict string nat) k n :
  sum_list_with snd (set c k n) + count_of c k = sum_list_with snd c + n.
Proof.
  unfold count_of. induction c as [|[k' n'] c IH]; simpl; [lia|].
  destruct (decide (k' = k)); simpl; lia.
Qed.

Lemma sum_counts_incr (c : odict string nat) k :
  sum_list_with snd (incr c k) = sum_list_with snd c + 1.
Proof. unfold incr. pose proof (sum_counts_set c k (count_of c k + 1)). lia. Qed.

Lemma keys_set_same {V W : Type} (d : odict string V) (d' : odict string W)
    k v w :
  keys d = keys d' → keys (set d k v) = keys (set d' k w).
Proof.
  intros Hkeys. destruct (decide (k ∈ keys d)) as [Hin|Hnin].
  - rewrite !keys_set_in; [done | by rewrite <-Hkeys | done].
  - rewrite !keys_set_notin; [by rewrite Hkeys | by rewrite <-Hkeys | done].
Qed.

Lemma foldl_count_tag_NoDup cs c :
  NoDup (keys c) → NoDup (keys (foldl count_tag c cs)).
Proof.
  revert c. induction cs as [|child cs IH]; intros c Hc; simpl; [done|].
  apply IH. unfold count_tag. destruct (attrib child !! "k") as [k|]; [|done].
  destruct (truthy (Some k)); [|done]. by apply keys_set_NoDup.
Qed.

Section analyzer_edits.
Context `{Datetime}.
Implicit Types (st : Analysis) (elem : Element).

Lemma collect_metadata_effect st elem st' u :
  collect_metadata st elem = inr st' →
  count_of (contributors st') u
  = count_of (contributors st) u + length (edits_of u [elem])
  ∧ length (default [] (get (contrib_timestamps st') u))
    = length (default [] (get (contrib_timestamps st) u))
      + length (edits_of u [elem])
  ∧ length (timestamps st')
    = length (timestamps st) + (if contributes elem then 1 else 0)
  ∧ sum_list_with snd (contributors st')
    = sum_list_with snd (contributors st)
      + (if contributes elem then 1 else 0).
Proof.
  unfold collect_metadata, edits_of. rewrite filter_cons, filter_nil.
  destruct (contributes elem) eqn:Hc.
  - unfold contributes in Hc.
    destruct (attrib elem !! "timestamp") as [ts|]; [|done].
    destruct (attrib elem !! "user") as [user|]; [|by destruct ts].
    destruct (fromisoformat _) as [msg|dt]; [done|]. intros [= <-].
    cbn [contributors contrib_timestamps timestamps].
    rewrite count_of_incr, get_set, length_app, sum_counts_incr.
    destruct (decide (user = u)) as [->|Hne].
    + rewrite decide_True by done. simpl. rewrite length_app. simpl. lia.
    + rewrite decide_False by (intros [_ [= ?]]; done). simpl. lia.
  - intros [= <-]. rewrite decide_False by (by intros [? _]). simpl. lia.
Qed.

Lemma analysis_ok_metadata st elem st' :
  collect_metadata st elem = inr st' → analysis_ok st → analysis_ok st'.
Proof.
  unfold collect_metadata. destruct (contributes elem); [|by intros [= <-]].
  destruct (attrib elem !! "timestamp") as [ts|]; [|by intros [= <-]].
  destruct (attrib elem !! "user") as [user|]; [|by intros [= <-]].
  destruct (fromisoformat _) as [msg|dt]; [done|].
  intros [= <-] (Hc & Ht & Hkeys & Hts). unfold analysis_ok.
  cbn [contributors contrib_timestamps timestamps tags_counter]. split_and!.
  - by apply keys_set_NoDup.
  - done.
  - by apply keys_set_same.
  - intros u l. rewrite get_set.
    destruct (decide (user = u)) as [->|_].
    + intros [= <-]. split; [by destruct (default [] _)|].
      intros t [Hin|Hin]%elem_of_app; apply elem_of_app; [left|by right].
      destruct (get (contrib_timestamps st) u) as [l0|] eqn:Hl0; simpl in Hin.
      * by apply (Hts u l0).
      * by apply elem_of_nil in Hin.
    + intros Hl. destruct (Hts u l Hl) as [Hne Hsub]. split; [done|].
      intros t Hin. apply elem_of_app. left. by apply Hsub.
Qed.

Lemma analysis_ok_loop elems st st' :
  analyze_loop st elems = inr st' → analysis_ok st → analysis_ok st'.
Proof.
  revert st. induction elems as [|elem elems IH]; intros st; cbn [analyze_loop].
  - by intros [= <-].
  - unfold analyze_element. destruct (is_osm_object (tag elem)); [|apply IH].
    destruct (collect_metadata st elem) as [e|st1] eqn:Hmeta; [done|].
    intros Hloop Hok. apply (IH _ Hloop).
    destruct (analysis_ok_metadata _ _ _ Hmeta Hok) as (Hc & Ht & Hkeys & Hts).
    unfold analysis_ok, collect_tag_keys.
    cbn [contributors contrib_timestamps timestamps tags_counter].
    split_and!; [done | by apply foldl_count_tag_NoDup | done | done].
Qed.

Lemma analysis_ok_start : analysis_ok analysis_start.
Proof. split_and!; try constructor; try done. Qed.

Lemma edits_of_cons u elem elems :
  length (edits_of u (elem :: elems))
  = length (edits_of u [elem]) + length (edits_of u elems).
Proof.
  unfold edits_of. rewrite !filter_cons, filter_nil.
  by destruct (decide _).
Qed.

Lemma analyze_loop_edits elems st st' u :
  analyze_loop st elems = inr st' →
  count_of (contributors st') u
  = count_of (contributors st) u
    + length (edits_of u (filter (λ e, is_osm_object (tag e) = true) elems))
  ∧ length (default [] (get (contrib_timestamps st') u))
    = length (default [] (get (contrib_timestamps st) u))
      + length (edits_of u (filter (λ e, is_osm_object (tag e) = true) elems))
  ∧ length (timestamps st')
    = length (timestamps st)
      + length (filter (λ e, contributes e = true)
                  (filter (λ e, is_osm_object (tag e) = true) elems))
  ∧ sum_list_with snd (contributors st')
    = sum_list_with snd (contributors st)
      + length (filter (λ e, contributes e = true)
                  (filter (λ e, is_osm_object (tag e) = true) elems)).
Proof.
  revert st. induction elems as [|elem elems IH]; intros st; cbn [analyze_loop].
  - intros [= <-]. rewrite !filter_nil. unfold edits_of. simpl. lia.
  - unfold analyze_element. rewrite (filter_cons _ elem).
    destruct (is_osm_object (tag elem)) eqn:Hosm.
    + rewrite decide_True by done.
      destruct (collect_metadata st elem) as [e|st1] eqn:Hmeta; [done|].
      intros Hloop. specialize (IH _ Hloop).
      unfold collect_tag_keys in IH.
      cbn [contributors contrib_timestamps timestamps] in IH.
      destruct (collect_metadata_effect _ _ _ u Hmeta) as (E1 & E2 & E3 & E4).
      rewrite edits_of_cons, (filter_cons _ elem).
      destruct (contributes elem); [rewrite decide_True by done
                                   |rewrite decide_False by done]; simpl; lia.
    + rewrite decide_False by done. apply IH.
Qed.
End analyzer_edits.

(** X14. After the loop, the edit count of a user is the number of objects
    that carry a timestamp and that user (both non-empty), and it is the
    number of timestamps kept for the user. *)
Theorem edit_count_is_objects_of_user `{Datetime} root st u :
  analyze_loop analysis_start (children root) = inr st →
  count_of (contributors st) u = length (edits_of u (osm_objects root))
  ∧ length (default [] (get (contrib_timestamps st) u))
    = length (edits_of u (osm_objects root)).
Proof.
  intros Hloop.
  destruct (analyze_loop_edits _ _ _ u Hloop) as (E1 & E2 & _).
  split; [apply E1 | apply E2].
Qed.

(** X14 on alice, who has two objects in the example document. *)
Lemma edit_count_is_objects_of_user_witness :
  count_of [("alice", 2); ("bob", 1)] "alice"
  = length (edits_of "alice" (osm_objects edits_doc))
  ∧ length (default [] (get [("alice", [1577836800%Z; 1577923210%Z]);
                            ("bob", [1561896000%Z])] "alice"))
    = length (edits_of "alice" (osm_objects edits_doc)).
Proof.
  apply (@edit_count_is_objects_of_user Utc.utc edits_doc
           (@mkAnalysis Utc.utc
              [1577836800%Z; 1577923210%Z; 1561896000%Z]
              [("alice", 2); ("bob", 1)]
              [("amenity", 3); ("name", 1)]
              [("alice", [1577836800%Z; 1577923210%Z]);
               ("bob", [1561896000%Z])])
           "alice").
  reflexivity.
Defined.

(** X15. After the loop, there is one timestamp per object that carries a
    timestamp and a user, the edit counts add up to that number, every user
    with an edit count has timestamps and conversely, and every timestamp
    of a user is one of the document's timestamps. *)
Theorem timestamps_are_the_edits `{Datetime} root st :
  analyze_loop analysis_start (children root) = inr st →
  length (timestamps st)
  = length (filter (λ e, contributes e = true) (osm_objects root))
  ∧ sum_list_with snd (contributors st) = length (timestamps st)
  ∧ keys (contributors st) = keys (contrib_timestamps st)
  ∧ NoDup (keys (contributors st))
  ∧ ∀ u l, get (contrib_timestamps st) u = Some l →
           l ≠ [] ∧ ∀ t, t ∈ l → t ∈ timestamps st.
Proof.
  intros Hloop.
  destruct (analyze_loop_edits _ _ _ "" Hloop) as (_ & _ & E3 & E4).
  destruct (analysis_ok_loop _ _ _ Hloop analysis_ok_start)
    as (Hc & _ & Hkeys & Hts).
  simpl in E3, E4. split_and!; try done. by rewrite E4, E3.
Qed.

(** X15 on the example document: three of its four objects have both. *)
Lemma timestamps_are_the_edits_witness :
  analyze_loop analysis_start (children edits_doc)
  = inr (@mkAnalysis Utc.utc
           [1577836800%Z; 1577923210%Z; 1561896000%Z]
           [("alice", 2); ("bob", 1)]
           [("amenity", 3); ("name", 1)]
           [("alice", [1577836800%Z; 1577923210%Z]);
            ("bob", [1561896000%Z])])
  ∧ length (filter (λ e, contributes e = true) (osm_objects edits_doc)) = 3.
Proof.
  split; [reflexivity|].
  destruct (@timestamps_are_the_edits Utc.utc edits_doc _ eq_refl) as [<- _].
  reflexivity.
Defined.

(** ** The analyzer: the report *)

Lemma utc_ordered : @dt_ordered Utc.utc.
Proof.
  split_and!; simpl.
  - intros a [= Hlt]. lia.
  - intros a b c [= Hab] [= Hbc]. f_equal. lia.
  - intros a b c [= Hac]. destruct (Z.ltb_spec a b); [by left|right].
    f_equal. lia.
Qed.

Lemma utc_total : @dt_total Utc.utc.
Proof. split; intros a b; by eexists. Qed.

Section report_facts.
Context `{Datetime}.
Implicit Types (st : Analysis) (l : list datetime).

Lemma analyze_report_inv root report :
  analyze_osm_xml root = inr report →
  ∃ st lifespan,
    analyze_loop analysis_start (children root) = inr st
    ∧ py_min (timestamps st) = inr (oldest report)
    ∧ py_max (timestamps st) = inr (newest report)
    ∧ lifespans (contrib_timestamps st) [] = inr lifespan
    ∧ top_tags report = most_common (tags_counter st)
    ∧ top_contribs report = most_common (contributors st)
    ∧ lifespan_ranked report = sorted_desc td_lt snd lifespan.
Proof.
  unfold analyze_osm_xml.
  destruct (analyze_loop _ _) as [|st] eqn:Hloop; [done|].
  destruct (py_min _) as [|lo] eqn:Hmin; [done|].
  destruct (py_max _) as [|hi] eqn:Hmax; [done|].
  destruct (lifespans _ _) as [|lifespan] eqn:Hspans; [done|].
  intros [= <-]. by exists st, lifespan.
Qed.

Lemma min_from_least l cur m :
  dt_ordered → min_from cur l = inr m →
  m ∈ cur :: l ∧ ∀ x, x ∈ cur :: l → dt_lt x m ≠ Some true.
Proof.
  intros (Hirr & Htrans & Hcotrans). revert cur.
  induction l as [|x l IH]; intros cur; simpl.
  - intros [= <-]. split; [left|].
    intros y ->%list_elem_of_singleton. apply Hirr.
  - destruct (dt_lt x cur) as [b|] eqn:Hx; [|done]. intros Hm.
    destruct (IH _ Hm) as [Hin Hleast]. destruct b.
    + split; [by right|]. intros y [->|Hy]%elem_of_cons; [|by apply Hleast].
      intros Hlt. apply (Hleast x); [left|]. by apply Htrans with cur.
    + split.
      { apply elem_of_cons in Hin as [->|Hin]; [left | by do 2 right]. }
      intros y [->|[->|Hy]%elem_of_cons]%elem_of_cons.
      * apply Hleast. left.
      * intros Hlt. destruct (Hcotrans _ cur _ Hlt) as [Hc|Hc]; [congruence|].
        apply (Hleast cur); [left | done].
      * apply Hleast. by right.
Qed.

Lemma max_from_greatest l cur m :
  dt_ordered → max_from cur l = inr m →
  m ∈ cur :: l ∧ ∀ x, x ∈ cur :: l → dt_lt m x ≠ Some true.
Proof.
  intros (Hirr & Htrans & Hcotrans). revert cur.
  induction l as [|x l IH]; intros cur; simpl.
  - intros [= <-]. split; [left|].
    intros y ->%list_elem_of_singleton. apply Hirr.
  - destruct (dt_lt cur x) as [b|] eqn:Hx; [|done]. intros Hm.
    destruct (IH _ Hm) as [Hin Hgreatest]. destruct b.
    + split; [by right|].
      intros y [->|Hy]%elem_of_cons; [|by apply Hgreatest].
      intros Hlt. apply (Hgreatest x); [left|]. by apply Htrans with cur.
    + split.
      { apply elem_of_cons in Hin as [->|Hin]; [left | by do 2 right]. }
      intros y [->|[->|Hy]%elem_of_cons]%elem_of_cons.
      * apply Hgreatest. left.
      * intros Hlt. destruct (Hcotrans _ cur _ Hlt) as [Hc|Hc]; [|congruence].
        apply (Hgreatest cur); [left | done].
      * apply Hgreatest. by right.
Qed.

Lemma min_from_total l cur : dt_total → ∃ m, min_from cur l = inr m.
Proof.
  intros [Hlt _]. revert cur. induction l as [|x l IH]; intros cur; simpl.
  - by eexists.
  - destruct (Hlt x cur) as [b ->]. apply IH.
Qed.

Lemma max_from_total l cur : dt_total → ∃ m, max_from cur l = inr m.
Proof.
  intros [Hlt _]. revert cur. induction l as [|x l IH]; intros cur; simpl.
  - by eexists.
  - destruct (Hlt cur x) as [b ->]. apply IH.
Qed.

Lemma lifespans_total items acc :
  dt_total → Forall (λ item, item.2 ≠ []) items →
  ∃ lifespan, lifespans items acc = inr lifespan.
Proof.
  intros Htotal Hall. revert acc.
  induction Hall as [|[user tslist] items Hne _ IH]; intros acc; simpl.
  - by eexists.
  - destruct tslist as [|t tslist]; [done|]. simpl.
    destruct (min_from_total tslist t Htotal) as [lo ->].
    destruct (max_from_total tslist t Htotal) as [hi ->].
    destruct (proj2 Htotal hi lo) as [span ->]. apply IH.
Qed.
End report_facts.

(** X16. When the order of instants is a strict weak order (a total order
    up to ties), the oldest and the newest timestamp of the report are
    timestamps of the document, no timestamp is before the oldest and none
    is after the newest. *)
Theorem oldest_and_newest_are_extremal `{Datetime} root report :
  dt_ordered →
  analyze_osm_xml root = inr report →
  ∃ st, analyze_loop analysis_start (children root) = inr st
    ∧ oldest report ∈ timestamps st
    ∧ newest report ∈ timestamps st
    ∧ ∀ t, t ∈ timestamps st →
           dt_lt t (oldest report) ≠ Some true
           ∧ dt_lt (newest report) t ≠ Some true.
Proof.
  intros Hord (st & lifespan & Hloop & Hmin & Hmax & _)%analyze_report_inv.
  exists st. split; [done|].
  destruct (timestamps st) as [|t0 ts]; [done|]. simpl in Hmin, Hmax.
  destruct (min_from_least _ _ _ Hord Hmin) as [Hin_min Hleast].
  destruct (max_from_greatest _ _ _ Hord Hmax) as [Hin_max Hgreatest].
  split_and!; [done | done |]. intros t Ht. split; auto.
Qed.

(** X16 on the example document, with instants in seconds. *)
Lemma oldest_and_newest_are_extremal_witness :
  ∃ st, @analyze_loop Utc.utc analysis_start (children edits_doc) = inr st
    ∧ 1561896000%Z ∈ timestamps st
    ∧ 1577923210%Z ∈ timestamps st
    ∧ ∀ t, t ∈ timestamps st →
           @dt_lt Utc.utc t 1561896000%Z ≠ Some true
           ∧ @dt_lt Utc.utc 1577923210%Z t ≠ Some true.
Proof.
  apply (@oldest_and_newest_are_extremal Utc.utc edits_doc
           (@mkReport Utc.utc 1561896000%Z 1577923210%Z
              [("amenity", 3); ("name", 1)] [("alice", 2); ("bob", 1)]
              [("alice", 86410%Z); ("bob", 0%Z)])
           utc_ordered).
  reflexivity.
Defined.

(** X17. When comparing and subtracting instants never raise, the analyzer
    returns a report exactly when its loop ends without an error and has
    collected at least one timestamp. *)
Theorem analyzer_returns_iff_timestamps `{Datetime} root :
  dt_total →
  (∃ report, analyze_osm_xml root = inr report)
  ↔ ∃ st, analyze_loop analysis_start (children root) = inr st
          ∧ timestamps st ≠ [].
Proof.
  intros Htotal. split.
  - intros [report (st & lifespan & Hloop & Hmin & _)%analyze_report_inv].
    exists st. split; [done|]. by destruct (timestamps st).
  - intros (st & Hloop & Hne). unfold analyze_osm_xml. rewrite Hloop.
    destruct (analysis_ok_loop _ _ _ Hloop analysis_ok_start)
      as (_ & _ & _ & Hts).
    destruct (timestamps st) as [|t0 ts] eqn:Hts0; [done|]. simpl.
    destruct (min_from_total ts t0 Htotal) as [lo ->].
    destruct (max_from_total ts t0 Htotal) as [hi ->].
    destruct (lifespans_total (contrib_timestamps st) [] Htotal)
      as [lifespan ->]; [|by eexists].
    apply Forall_forall. intros [u l] Hin. simpl.
    apply (Hts u l). apply elem_of_items; [|done].
    destruct (analysis_ok_loop _ _ _ Hloop analysis_ok_start)
      as (Hc & _ & Hkeys & _). by rewrite <-Hkeys.
Qed.

(** X17 on the example document and on the cafe document. *)
Lemma analyzer_returns_iff_timestamps_witness :
  ((∃ report, @analyze_osm_xml Utc.utc edits_doc = inr report)
   ↔ ∃ st, @analyze_loop Utc.utc analysis_start (children edits_doc) = inr st
           ∧ timestamps st ≠ [])
  ∧ ∃ report, @analyze_osm_xml Utc.utc edits_doc = inr report.
Proof.
  split; [exact (@analyzer_returns_iff_timestamps Utc.utc edits_doc utc_total)|].
  by eexists.
Defined.

(** *** The rankings *)

Section sorted_desc_facts.
Context {A B : Type} (lt : B → B → bool) (key : A → B).

Lemma insert_desc_Permutation x l : insert_desc lt key x l ≡ₚ x :: l.
Proof.
  induction l as [|y l IH]; simpl; [done|].
  destruct (lt (key y) (key x)); [done|].
  rewrite IH. apply Permutation_swap.
Qed.

Lemma foldl_insert_desc_Permutation l acc :
  foldl (λ acc x, insert_desc lt key x acc) acc l ≡ₚ acc ++ l.
Proof.
  revert acc. induction l as [|x l IH]; intros acc; simpl.
  - by rewrite app_nil_r.
  - rewrite IH, insert_desc_Permutation. simpl. apply Permutation_middle.
Qed.

Lemma sorted_desc_Permutation l : sorted_desc lt key l ≡ₚ l.
Proof. apply foldl_insert_desc_Permutation. Qed.
End sorted_desc_facts.

Lemma filter_none {A : Type} (P : A → Prop) `{∀ x, Decision (P x)}
    (l : list A) :
  Forall (λ x, ¬ P x) l → filter P l = [].
Proof.
  induction 1 as [|x l Hx _ IH]; [done|]. by rewrite filter_cons_False.
Qed.

Section by_count.
Context {A : Type} (count : A → nat).

Let ranked := StronglySorted (λ x y : A, count y ≤ count x).

Lemma insert_desc_ranked x l :
  ranked l → ranked (insert_desc Nat.ltb count x l).
Proof.
  unfold ranked. induction 1 as [|y l Hl IH Hy]; simpl.
  - repeat constructor.
  - destruct (Nat.ltb_spec (count y) (count x)) as [Hlt|Hge].
    + constructor; [by constructor|].
      constructor; [lia|]. eapply Forall_impl; [done|]. simpl. lia.
    + constructor; [done|].
      rewrite insert_desc_Permutation. by constructor.
Qed.

Lemma insert_desc_ties x l n :
  ranked l →
  filter (λ y, count y = n) (insert_desc Nat.ltb count x l)
  = filter (λ y, count y = n) l
    ++ (if decide (count x = n) then [x] else []).
Proof.
  unfold ranked. induction 1 as [|y l Hl IH Hy]; simpl.
  - rewrite filter_cons, filter_nil. by destruct (decide _).
  - destruct (Nat.ltb_spec (count y) (count x)) as [Hlt|Hge].
    + rewrite (filter_cons _ x). destruct (decide (count x = n)) as [Hx|];
        [|by rewrite app_nil_r].
      assert (filter (λ z, count z = n) (y :: l) = []) as ->; [|done].
      apply filter_none, Forall_cons. split; [lia|].
      eapply Forall_impl; [done|]. simpl. lia.
    + rewrite !(filter_cons _ y), IH.
      by destruct (decide (count y = n)).
Qed.

Lemma foldl_insert_desc_ranked l acc :
  ranked acc →
  ranked (foldl (λ acc x, insert_desc Nat.ltb count x acc) acc l)
  ∧ ∀ n, filter (λ y, count y = n)
                (foldl (λ acc x, insert_desc Nat.ltb count x acc) acc l)
         = filter (λ y, count y = n) acc ++ filter (λ y, count y = n) l.
Proof.
  revert acc. induction l as [|x l IH]; intros acc Hacc; simpl.
  - split; [done|]. intros n. by rewrite filter_nil, app_nil_r.
  - destruct (IH _ (insert_desc_ranked x acc Hacc)) as [Hranked Hties].
    split; [done|]. intros n.
    rewrite Hties, insert_desc_ties, filter_cons, <-app_assoc by done.
    by destruct (decide (count x = n)).
Qed.
End by_count.

(** X18. The ranking of the tags holds every key of the tag counter once,
    with its count, in the order of decreasing counts; so does the ranking
    of the contributors with the edit counts. *)
Theorem rankings_are_sorted_counters `{Datetime} root report :
  analyze_osm_xml root = inr report →
  ∃ st, analyze_loop analysis_start (children root) = inr st
    ∧ top_tags report ≡ₚ tags_counter st
    ∧ NoDup (top_tags report).*1
    ∧ StronglySorted (λ x y, y.2 ≤ x.2) (top_tags report)
    ∧ top_contribs report ≡ₚ contributors st
    ∧ NoDup (top_contribs report).*1
    ∧ StronglySorted (λ x y, y.2 ≤ x.2) (top_contribs report).
Proof.
  intros (st & lifespan & Hloop & _ & _ & _ & -> & -> & _)%analyze_report_inv.
  destruct (analysis_ok_loop _ _ _ Hloop analysis_ok_start)
    as (Hc & Ht & _ & _).
  exists st. unfold most_common. split_and!.
  - done.
  - apply sorted_desc_Permutation.
  - by rewrite sorted_desc_Permutation.
  - apply (foldl_insert_desc_ranked snd). constructor.
  - apply sorted_desc_Permutation.
  - by rewrite sorted_desc_Permutation.
  - apply (foldl_insert_desc_ranked snd). constructor.
Qed.

(** X18 on the example document. *)
Lemma rankings_are_sorted_counters_witness :
  ∃ st, @analyze_loop Utc.utc analysis_start (children edits_doc) = inr st
    ∧ [("amenity", 3); ("name", 1)] ≡ₚ tags_counter st
    ∧ NoDup [("amenity", 3); ("name", 1)].*1
    ∧ StronglySorted (λ x y, y.2 ≤ x.2) [("amenity", 3); ("name", 1)]
    ∧ [("alice", 2); ("bob", 1)] ≡ₚ contributors st
    ∧ NoDup [("alice", 2); ("bob", 1)].*1
    ∧ StronglySorted (λ x y, y.2 ≤ x.2) [("alice", 2); ("bob", 1)].
Proof.
  apply (@rankings_are_sorted_counters Utc.utc edits_doc
           (@mkReport Utc.utc 1561896000%Z 1577923210%Z
              [("amenity", 3); ("name", 1)] [("alice", 2); ("bob", 1)]
              [("alice", 86410%Z); ("bob", 0%Z)])).
  reflexivity.
Defined.

(** X19. Keys with the same count are ranked in the order in which the
    document first names them, and contributors with the same number of
    edits in the order of their first edit: the entries of a given count
    are those of the counter, in the counter's order. *)
Theorem ranking_ties_keep_first_seen_order `{Datetime} root report n :
  analyze_osm_xml root = inr report →
  ∃ st, analyze_loop analysis_start (children root) = inr st
    ∧ filter (λ x, x.2 = n) (top_tags report)
      = filter (λ x, x.2 = n) (tags_counter st)
    ∧ filter (λ x, x.2 = n) (top_contribs report)
      = filter (λ x, x.2 = n) (contributors st).
Proof.
  intros (st & lifespan & Hloop & _ & _ & _ & -> & -> & _)%analyze_report_inv.
  exists st. unfold most_common, sorted_desc. split_and!; [done| |].
  - by rewrite (proj2 (foldl_insert_desc_ranked snd _ [] (SSorted_nil _))).
  - by rewrite (proj2 (foldl_insert_desc_ranked snd _ [] (SSorted_nil _))).
Qed.

(** X19 on a document that names [shop], [name] twice, and [amenity]. *)
Lemma ranking_ties_keep_first_seen_order_witness :
  ∃ st, @analyze_loop Utc.utc analysis_start (children ties_doc) = inr st
    ∧ filter (λ x, x.2 = 1) [("name", 2); ("shop", 1); ("amenity", 1)]
      = filter (λ x, x.2 = 1) (tags_counter st)
    ∧ filter (λ x, x.2 = 1) [("carol", 1)]
      = filter (λ x, x.2 = 1) (contributors st).
Proof.
  apply (@ranking_ties_keep_first_seen_order Utc.utc ties_doc
           (@mkReport Utc.utc 1577836800%Z 1577836800%Z
              [("name", 2); ("shop", 1); ("amenity", 1)] [("carol", 1)]
              [("carol", 0%Z)]) 1).
  reflexivity.
Defined.

(** *** The lifespans *)

Lemma set_fresh {V : Type} (d : odict string V) k v :
  k ∉ keys d → set d k v = d ++ [(k, v)].
Proof.
  induction d as [|[k' v'] d IH]; [done|].
  rewrite keys_cons, not_elem_of_cons. intros [Hne Hnin]. cbn [set].
  rewrite decide_False by done. by rewrite IH.
Qed.

Section lifespan_facts.
Context `{Datetime}.

Lemma lifespans_spec items acc lifespan :
  lifespans items acc = inr lifespan →
  NoDup (keys acc ++ keys items) →
  keys lifespan = keys acc ++ keys items
  ∧ ∀ u span, (u, span) ∈ lifespan →
      (u, span) ∈ acc
      ∨ ∃ tslist lo hi,
          (u, tslist) ∈ items ∧ py_min tslist = inr lo
          ∧ py_max tslist = inr hi ∧ dt_sub hi lo = Some span.
Proof.
  revert acc. induction items as [|[user tslist] items IH]; intros acc.
  - intros [= <-] _. split; [by rewrite app_nil_r | by left].
  - cbn [lifespans].
    destruct (py_min tslist) as [|lo] eqn:Hlo; [done|].
    destruct (py_max tslist) as [|hi] eqn:Hhi; [done|].
    destruct (dt_sub hi lo) as [span|] eqn:Hspan; [|done].
    intros Hrest Hnd. rewrite keys_cons in Hnd.
    assert (user ∉ keys acc) as Hfresh.
    { apply NoDup_app in Hnd as (_ & Hdisj & _). intros Hin.
      apply (Hdisj user Hin). left. }
    rewrite set_fresh in Hrest by done.
    destruct (IH _ Hrest) as [Hkeys Hitems].
    { unfold keys. rewrite fmap_app. simpl. by rewrite <-app_assoc. }
    split.
    + rewrite Hkeys. unfold keys. rewrite fmap_app, <-app_assoc. done.
    + intros u s Hin. destruct (Hitems u s Hin) as [Hacc|Hnew].
      * apply elem_of_app in Hacc as [?|[= -> ->]%list_elem_of_singleton];
          [by left|].
        right. exists tslist, lo, hi. split_and!; [left | done..].
      * right. destruct Hnew as (l & lo' & hi' & Hl & ?).
        exists l, lo', hi'. split; [by right | done].
Qed.
End lifespan_facts.

(** X20. The ranking of the lifespans has one entry for every contributor,
    and the lifespan it gives is the contributor's newest timestamp minus
    the oldest one. *)
Theorem lifespan_is_newest_minus_oldest `{Datetime} root report :
  analyze_osm_xml root = inr report →
  ∃ st, analyze_loop analysis_start (children root) = inr st
    ∧ (lifespan_ranked report).*1 ≡ₚ keys (contributors st)
    ∧ ∀ u span, (u, span) ∈ lifespan_ranked report →
        ∃ tslist lo hi,
          get (contrib_timestamps st) u = Some tslist
          ∧ py_min tslist = inr lo ∧ py_max tslist = inr hi
          ∧ dt_sub hi lo = Some span.
Proof.
  intros (st & lifespan & Hloop & _ & _ & Hspans & _ & _ & ->)%analyze_report_inv.
  destruct (analysis_ok_loop _ _ _ Hloop analysis_ok_start)
    as (Hc & _ & Hkeys & _).
  destruct (lifespans_spec _ _ _ Hspans) as [Hk Hitems].
  { simpl. by rewrite <-Hkeys. }
  exists st. split_and!; [done | |].
  - rewrite sorted_desc_Permutation. fold (keys lifespan).
    by rewrite Hk, Hkeys.
  - intros u span Hin. rewrite sorted_desc_Permutation in Hin.
    destruct (Hitems u span Hin) as [Hnil|(l & lo & hi & Hl & ?)].
    { by apply elem_of_nil in Hnil. }
    exists l, lo, hi. split; [|done].
    apply elem_of_items; [by rewrite <-Hkeys | done].
Qed.

(** X20 on the example document: alice's two edits are a day and ten
    seconds apart. *)
Lemma lifespan_is_newest_minus_oldest_witness :
  ∃ st, @analyze_loop Utc.utc analysis_start (children edits_doc) = inr st
    ∧ [("alice", 86410%Z); ("bob", 0%Z)].*1 ≡ₚ keys (contributors st)
    ∧ ∀ u span, (u, span) ∈ [("alice", 86410%Z); ("bob", 0%Z)] →
        ∃ tslist lo hi,
          get (contrib_timestamps st) u = Some tslist
          ∧ py_min tslist = inr lo ∧ py_max tslist = inr hi
          ∧ dt_sub hi lo = Some span.
Proof.
  apply (@lifespan_is_newest_minus_oldest Utc.utc edits_doc
           (@mkReport Utc.utc 1561896000%Z 1577923210%Z
              [("amenity", 3); ("name", 1)] [("alice", 2); ("bob", 1)]
              [("alice", 86410%Z); ("bob", 0%Z)])).
  reflexivity.
Defined.

(** ** The citation line and line feeds *)

Lemma has_newline_app s1 s2 :
  has_newline (s1 +:+ s2) = has_newline s1 || has_newline s2.
Proof.
  induction s1 as [|c s1 IH]; simpl; [done|]. by rewrite IH, orb_assoc.
Qed.

Lemma upper_newline c : upper c = "010"%char → c = "010"%char.
Proof.
  destruct c as [[] [] [] [] [] [] [] []]; vm_compute; congruence.
Qed.

Lemma lower_newline c : lower c = "010"%char → c = "010"%char.
Proof.
  destruct c as [[] [] [] [] [] [] [] []]; vm_compute; congruence.
Qed.

Lemma lower_all_newline s : has_newline (lower_all s) = has_newline s.
Proof.
  induction s as [|c s IH]; simpl; [done|]. rewrite IH. f_equal.
  apply bool_decide_ext. split; [apply lower_newline | by intros ->].
Qed.

Lemma capitalize_newline s : has_newline (capitalize s) = has_newline s.
Proof.
  destruct s as [|c s]; simpl; [done|]. rewrite lower_all_newline. f_equal.
  apply bool_decide_ext. split; [apply upper_newline | by intros ->].
Qed.

(** X21. The citation line of an object has a line feed only if the kind,
    the id or the name has one: joined with line feeds, the lines of objects
    whose fields have none stay one line each. *)
Theorem citation_is_one_line typ oid name line :
  _format_object (typ, oid, name) = Some line →
  has_newline line = has_newline typ || has_newline oid || has_newline name.
Proof.
  assert (_format_object (typ, oid, name)
          = Some ("* {{" +:+ capitalize typ +:+ "|" +:+ oid +:+ "|"
                  +:+ (if truthy (Some name) then name else unnamed)
                  +:+ "}}")) as ->.
  { unfold _format_object. reflexivity. }
  intros [= <-]. rewrite !has_newline_app, capitalize_newline.
  destruct name as [|c name]; simpl.
  - by rewrite !orb_false_r.
  - rewrite !orb_false_r. by rewrite !orb_assoc.
Qed.

(** X21 on the node of the cafe document. *)
Lemma citation_is_one_line_witness :
  has_newline "* {{Node|1|Cafe}}"
  = has_newline "node" || has_newline "1" || has_newline "Cafe".
Proof.
  apply (citation_is_one_line "node" "1" "Cafe" "* {{Node|1|Cafe}}").
  reflexivity.
Defined.

(** ** The aggregator: the order of the traversal *)

Lemma lookup_by_count `{Countable K} (c : gmap K nat) k :
  (∀ n, c !! k = Some n → 1 ≤ n) →
  c !! k = if decide (counter_get c k = 0) then None
           else Some (counter_get c k).
Proof.
  intros Hpos. unfold counter_get. destruct (c !! k) as [n|] eqn:Hk; simpl.
  - specialize (Hpos n eq_refl). rewrite decide_False by lia. done.
  - done.
Qed.

Lemma counters_equal `{Countable K} (c c' : gmap K nat) :
  (∀ k n, c !! k = Some n → 1 ≤ n) →
  (∀ k n, c' !! k = Some n → 1 ≤ n) →
  (∀ k, counter_get c k = counter_get c' k) →
  c = c'.
Proof.
  intros Hc Hc' Hcounts. apply map_eq. intros k.
  rewrite (lookup_by_count c k (Hc k)), (lookup_by_count c' k (Hc' k)).
  by rewrite Hcounts.
Qed.

(** X22. The key counts and the value counts do not depend on the order in
    which the objects are traversed; the order only shows in the order of
    the objects within a bucket. *)
Theorem counts_independent_of_order `{Clock} callback callback'
    context context' :
  processed context ≡ₚ processed context' →
  tag_counts (result (run callback context))
  = tag_counts (result (run callback' context'))
  ∧ values_map (result (run callback context))
    = values_map (result (run callback' context'))
  ∧ ∀ k v, objects_for (result (run callback context)) k v
           ≡ₚ objects_for (result (run callback' context')) k v.
Proof.
  intros Hperm. rewrite !run_result.
  set (a := foldl aggregate_element init (processed context)).
  set (a' := foldl aggregate_element init (processed context')).
  assert (entries_positive a) as (Hk & Hv & _)
    by apply entries_positive_foldl, entries_positive_init.
  assert (entries_positive a') as (Hk' & Hv' & _)
    by apply entries_positive_foldl, entries_positive_init.
  assert (sums_agree a) as Hs by apply sums_agree_foldl, sums_agree_init.
  assert (sums_agree a') as Hs' by apply sums_agree_foldl, sums_agree_init.
  assert (tag_counts a = tag_counts a') as Hkeys.
  { apply counters_equal; [done | done |]. intros k. unfold a, a'.
    rewrite !foldl_aggregate_key_count. by rewrite Hperm. }
  split_and!; [done | |].
  - apply map_eq. intros k.
    pose proof (Hs k) as Hsk. pose proof (Hs' k) as Hsk'.
    rewrite Hkeys, Hsk' in Hsk.
    destruct (values_map a !! k) as [m|] eqn:Hm,
             (values_map a' !! k) as [m'|] eqn:Hm'; try done.
    f_equal. apply counters_equal.
    + intros v n. by apply (Hv k m).
    + intros v n. by apply (Hv' k m').
    + intros v.
      assert (m = values_for a k) as -> by (unfold values_for; by rewrite Hm).
      assert (m' = values_for a' k) as ->
        by (unfold values_for; by rewrite Hm').
      unfold a, a'. rewrite !foldl_aggregate_value_count. by rewrite Hperm.
  - intros k v. unfold a, a'.
    rewrite !foldl_aggregate_objects, !objects_for_init. simpl.
    by rewrite Hperm.
Qed.

(** X22 on the cafe document and the same document with its two objects
    exchanged. *)
Lemma counts_independent_of_order_witness :
  tag_counts (result (run true (iterparse cafe_doc)))
  = tag_counts (result (run true (iterparse cafe_doc_reversed)))
  ∧ values_map (result (run true (iterparse cafe_doc)))
    = values_map (result (run true (iterparse cafe_doc_reversed)))
  ∧ ∀ k v, objects_for (result (run true (iterparse cafe_doc))) k v
           ≡ₚ objects_for (result (run true (iterparse cafe_doc_reversed))) k v.
Proof.
  apply (@counts_independent_of_order millis_clock true true
           (iterparse cafe_doc) (iterparse cafe_doc_reversed)).
  apply Permutation_swap.
Defined.

(** ** The analyzer: the sum of the tag counts *)

Lemma sum_count_tag c child :
  sum_list_with snd (count_tag c child)
  = sum_list_with snd c + (if truthy (attrib child !! "k") then 1 else 0).
Proof.
  unfold count_tag. destruct (attrib child !! "k") as [k|]; simpl; [|lia].
  destruct k; simpl; [lia|]. apply sum_counts_incr.
Qed.

Lemma sum_foldl_count_tag cs c :
  sum_list_with snd (foldl count_tag c cs)
  = sum_list_with snd c
    + length (filter (λ child, truthy (attrib child !! "k") = true) cs).
Proof.
  revert c. induction cs as [|child cs IH]; intros c; cbn [foldl].
  - rewrite filter_nil. simpl. lia.
  - rewrite IH, sum_count_tag, filter_cons.
    destruct (truthy (attrib child !! "k")); simpl; lia.
Qed.

Lemma analyze_loop_tag_total `{Datetime} elems st st' :
  analyze_loop st elems = inr st' →
  sum_list_with snd (tags_counter st')
  = sum_list_with snd (tags_counter st)
    + length (filter (λ child, truthy (attrib child !! "k") = true)
                (filter (λ e, is_osm_object (tag e) = true) elems
                 ≫= findall "tag")).
Proof.
  revert st. induction elems as [|elem elems IH]; intros st; cbn [analyze_loop].
  - intros [= <-]. rewrite filter_nil. simpl. lia.
  - unfold analyze_element. rewrite (filter_cons _ elem).
    destruct (is_osm_object (tag elem)) eqn:Hosm.
    + rewrite decide_True by done.
      destruct (collect_metadata st elem) as [e|st1] eqn:Hmeta; [done|].
      intros Hloop. rewrite (IH _ Hloop). unfold collect_tag_keys.
      cbn [tags_counter]. rewrite sum_foldl_count_tag.
      rewrite (collect_metadata_tags_counter _ _ _ Hmeta).
      rewrite bind_cons, filter_app, length_app. lia.
    + rewrite decide_False by done. apply IH.
Qed.

(** X23. After the loop, the tag counter has distinct keys and its counts
    add up to the number of tag children of the document's objects whose
    [k] attribute is present and not empty. *)
Theorem tag_counts_add_up `{Datetime} root st :
  analyze_loop analysis_start (children root) = inr st →
  NoDup (keys (tags_counter st))
  ∧ sum_list_with snd (tags_counter st)
    = length (filter (λ child, truthy (attrib child !! "k") = true)
                (osm_objects root ≫= findall "tag")).
Proof.
  intros Hloop. split.
  - by destruct (analysis_ok_loop _ _ _ Hloop analysis_ok_start)
      as (_ & Ht & _).
  - by rewrite (analyze_loop_tag_total _ _ _ Hloop).
Qed.

(** X23 on the example document, which has four tag children. *)
Lemma tag_counts_add_up_witness :
  NoDup (keys [("amenity", 3); ("name", 1)])
  ∧ sum_list_with snd [("amenity", 3); ("name", 1)]
    = length (filter (λ child, truthy (attrib child !! "k") = true)
                (osm_objects edits_doc ≫= findall "tag")).
Proof.
  apply (@tag_counts_add_up Utc.utc edits_doc
           (@mkAnalysis Utc.utc
              [1577836800%Z; 1577923210%Z; 1561896000%Z]
              [("alice", 2); ("bob", 1)]
              [("amenity", 3); ("name", 1)]
              [("alice", [1577836800%Z; 1577923210%Z]);
               ("bob", [1561896000%Z])])).
  reflexivity.
Defined.

Example cafe_totals :
  total_objs (result (run true (iterparse cafe_doc))) = 3
  ∧ total_keys (result (run true (iterparse cafe_doc))) = 2
  ∧ length (filter (λ e, collect_tags e ≠ [])
                   (processed (iterparse cafe_doc))) = 2.
Proof. split_and!; reflexivity. Qed.
